(** * Credit-risk dashboard (CR_Bank_DashvMSPB.py): ingestion, healing,
      field resolution and metric derivation, embedded in Rocq.

    The development follows the pipeline of the script:
    - [FDICDataFetcher.fetch_all_banks] (primary source, LNCI rejoin),
    - [FFIECBulkLoader] (three-step download, retries, cache, need
      assessment, healing merge),
    - [BankMetricsProcessor] (field resolution, YTD to quarterly, safe
      ratio, growth, rolling TTM metrics, 8-quarter averages).

    Numeric cells are numpy float64 values.  They are modelled by [float]:
    a finite value carried as an exact rational, the two infinities, and
    NaN (pandas' "missing").  Rounding, overflow and the sign of zero are
    not modelled; every comparison and every NaN rule is.

    A pandas DataFrame is a list of rows; the position of a row is its
    index label.  (CERT, REPDTE) keys are taken to be unique within a
    table where pandas aligns on them, as the script relies on. *)

From Stdlib Require Import QArith Qcanon.
From stdpp Require Import base numbers option list sorting gmap strings pretty functions.

Local Open Scope Z_scope.

(** ** Floating-point cells *)

Inductive float : Type :=
  | Fin (q : Qc)
  | Inf (negative : bool)
  | NaN.

Global Instance float_eq_dec : EqDecision float.
Proof. solve_decision. Defined.

Global Instance float_inhabited : Inhabited float := populate NaN.

Definition F (z : Z) : float := Fin (Qc_of_Z z).

(** [pd.isna] / [pd.notna] on a float cell. *)
Definition isna (x : float) : bool :=
  match x with NaN => true | _ => false end.
Definition notna (x : float) : bool := negb (isna x).

Definition is_finite (x : float) : bool :=
  match x with Fin _ => true | _ => false end.

(** Python [==] and [!=] on floats: NaN is unequal to everything. *)
Definition feqb (x y : float) : bool :=
  match x, y with
  | Fin a, Fin b => bool_decide (a = b)
  | Inf s, Inf t => bool_decide (s = t)
  | _, _ => false
  end.
Definition fneb (x y : float) : bool := negb (feqb x y).

(** Python [>] on floats: false as soon as one side is NaN. *)
Definition fgtb (x y : float) : bool :=
  match x, y with
  | Fin a, Fin b => bool_decide (b < a)%Qc
  | Inf false, Fin _ => true
  | Inf false, Inf true => true
  | Fin _, Inf true => true
  | _, _ => false
  end.

Definition fneg (x : float) : float :=
  match x with
  | Fin a => Fin (- a)%Qc
  | Inf s => Inf (negb s)
  | NaN => NaN
  end.

Definition fadd (x y : float) : float :=
  match x, y with
  | Fin a, Fin b => Fin (a + b)%Qc
  | Fin _, Inf s | Inf s, Fin _ => Inf s
  | Inf s, Inf t => if bool_decide (s = t) then Inf s else NaN
  | _, _ => NaN
  end.

Definition fsub (x y : float) : float := fadd x (fneg y).

Definition is_neg (a : Qc) : bool := bool_decide (a < 0)%Qc.

Definition fmul (x y : float) : float :=
  match x, y with
  | Fin a, Fin b => Fin (a * b)%Qc
  | Fin a, Inf s | Inf s, Fin a =>
      if bool_decide (a = 0%Qc) then NaN else Inf (xorb s (is_neg a))
  | Inf s, Inf t => Inf (xorb s t)
  | _, _ => NaN
  end.

(** numpy division: a finite value over zero is an infinity, 0/0 is NaN. *)
Definition fdiv (x y : float) : float :=
  match x, y with
  | Fin a, Fin b =>
      if bool_decide (b = 0%Qc)
      then (if bool_decide (a = 0%Qc) then NaN else Inf (is_neg a))
      else Fin (a / b)%Qc
  | Fin _, Inf _ => Fin 0%Qc
  | Inf s, Fin b => Inf (xorb s (is_neg b))
  | _, _ => NaN
  end.

Definition fabs (x : float) : float :=
  match x with
  | Fin a => Fin (if is_neg a then - a else a)%Qc
  | Inf _ => Inf false
  | NaN => NaN
  end.

(** Python's builtin [max(0, x)]: the first argument is kept unless the
    second compares strictly greater, so [max(0, nan)] is [0]. *)
Definition max0 (x : float) : float := if fgtb x (F 0) then x else F 0.

(** [Series.fillna] on one cell. *)
Definition fillna (x fill : float) : float := if isna x then fill else x.


(** ** Tables

    A [DataFrame] is the list of its rows, in row order; the position of
    a row is its index label.  A row carries the two key columns and its
    numeric cells.  A column exists in a frame when some row has a cell
    for it; a cell that a row lacks reads as NaN, as in pandas. *)

Record Timestamp : Type := { year : Z; month : Z; day : Z }.

Global Instance Timestamp_eq_dec : EqDecision Timestamp.
Proof. solve_decision. Defined.

(** Chronological order, and [Series.dt.quarter]. *)
Definition ts_lt (a b : Timestamp) : Prop :=
  year a < year b ∨
  (year a = year b ∧ (month a < month b ∨ (month a = month b ∧ day a < day b))).
Definition ts_le (a b : Timestamp) : Prop := a = b ∨ ts_lt a b.
Definition ts_ge (a b : Timestamp) : Prop := ts_le b a.

Global Instance ts_lt_dec : RelDecision ts_lt.
Proof. intros a b. unfold ts_lt. apply _. Defined.
Global Instance ts_le_dec : RelDecision ts_le.
Proof. intros a b. unfold ts_le. apply _. Defined.
Global Instance ts_ge_dec : RelDecision ts_ge.
Proof. intros a b. unfold ts_ge. apply _. Defined.

Definition quarter (t : Timestamp) : Z := (month t - 1) / 3 + 1.

Record Row : Type := { CERT : Z; REPDTE : Timestamp; cells : gmap string float }.

Abbreviation DataFrame := (list Row).

Definition cell (r : Row) (c : string) : float := default NaN (cells r !! c).

Definition with_cell (c : string) (v : float) (r : Row) : Row :=
  {| CERT := CERT r; REPDTE := REPDTE r; cells := <[c := v]> (cells r) |}.

Definition columns (df : DataFrame) : gset string :=
  ⋃ ((λ r, dom (cells r)) <$> df).

(** [c in df.columns] *)
Definition has_column (df : DataFrame) (c : string) : bool :=
  bool_decide (c ∈ columns df).

(** [df[c]]: the column as a positional series. *)
Definition column (df : DataFrame) (c : string) : list float :=
  (λ r, cell r c) <$> df.

(** [df[c] = vals], with [vals] on the frame's own index. *)
Definition set_column (df : DataFrame) (c : string) (vals : list float) : DataFrame :=
  imap (λ i r, with_cell c (default NaN (vals !! i)) r) df.

(** The row handed to a function by [df.apply(f, axis=1)]: a series with
    one entry per column of the frame. *)
Definition row_series (df : DataFrame) (r : Row) : gmap string float :=
  cells r ∪ gset_to_gmap NaN (columns df).

(** [sort_values('REPDTE')] on rows paired with their index label. *)
Definition sort_by_REPDTE {A} (key : A → Timestamp) (l : list A) : list A :=
  merge_sort (λ a b, ts_le (key a) (key b)) l.

(** The keys [groupby('CERT')] iterates over: distinct, ascending. *)
Definition group_keys (df : DataFrame) : list Z :=
  merge_sort Z.le (remove_dups (CERT <$> df)).

(** One group: the rows of an institution with their index labels. *)
Definition group_of (df : DataFrame) (cert : Z) : list (nat * Row) :=
  filter (λ ir, CERT ir.2 = cert) (imap pair df).

(** ** Series operations used by the derivation engine *)

(** Element-wise binary operation of two series on a shared positional
    index; a label present on one side only yields NaN (index union). *)
Fixpoint series_op (op : float → float → float) (a b : list float) : list float :=
  match a, b with
  | x :: a', y :: b' => op x y :: series_op op a' b'
  | [], _ => (λ _, NaN) <$> b
  | _, [] => (λ _, NaN) <$> a
  end.

(** [Series.diff()]: first difference, NaN at the first position. *)
Definition diff (l : list float) : list float :=
  match l with
  | [] => []
  | _ :: t => NaN :: zip_with fsub t l
  end.

(** [Series.shift(k)]. *)
Definition shift (k : nat) (l : list float) : list float :=
  take (length l) (replicate k NaN ++ l).

Definition fsum (l : list float) : float := foldr fadd (F 0) l.
Definition fmean (l : list float) : float :=
  fdiv (fsum l) (F (Z.of_nat (length l))).

(** The observations under a window of size [W] that ends at position [i]. *)
Definition window (W : nat) (l : list float) (i : nat) : list float :=
  take W (drop (S i - W) l).

(** [Series.rolling(W).agg()] with the default [min_periods = W]: a value
    is emitted only where the window holds [W] non-missing observations. *)
Definition rolling (agg : list float → float) (W : nat) (l : list float) : list float :=
  imap (λ i _,
          if bool_decide (W ≤ S i)%nat && forallb notna (window W l i)
          then agg (window W l i) else NaN) l.

Definition rolling_mean : nat → list float → list float := rolling fmean.

(** ** BankMetricsProcessor._safe_divide *)

(** What the caller may pass: a scalar float, a pandas Series, or [None]. *)
Inductive operand : Type :=
  | Scalar (x : float)
  | Series (s : list float)
  | PyNone.

(** [denominator.replace(0, np.nan)] *)
Definition replace_zero (d : list float) : list float :=
  (λ y, if feqb y (F 0) then NaN else y) <$> d.

(** The result is [None] when the call raises (a [None] numerator divided
    by a Series, outside the [try]). *)
Definition safe_divide (numerator denominator : operand) (fill_value : float)
  : option operand :=
  match numerator, denominator with
  | Scalar n, Scalar d =>
      Some (Scalar (if fneb d (F 0) then fdiv n d else fill_value))
  | _, Series d =>
      let denom_safe := replace_zero d in
      match numerator with
      | Scalar n => Some (Series ((λ y, fillna (fdiv n y) fill_value) <$> denom_safe))
      | Series n => Some (Series ((λ q, fillna q fill_value) <$> series_op fdiv n denom_safe))
      | PyNone => None
      end
  | Series n, Scalar d =>
      Some (Series ((λ x, fillna (fdiv x d) fill_value) <$> n))
  | _, _ => Some (Scalar fill_value)
  end.

(** The series form as the processor calls it (both arguments Series). *)
Definition safe_divide_series (n d : list float) (fill_value : float) : list float :=
  (λ q, fillna q fill_value) <$> series_op fdiv n (replace_zero d).

(** ** calc_safe_growth and the trailing-twelve-month metrics *)

Definition calc_safe_growth (curr prev : float) : float :=
  if isna curr || isna prev then NaN
  else if feqb prev (F 0) then (if feqb curr (F 0) then F 0 else NaN)
  else fmul (fdiv (fsub curr prev) (fabs prev)) (F 100).


(** [bank_df[f'{cat}_Growth_TTM']]: the balance against its value four
    observations back. *)
Definition growth_ttm (bal : list float) : list float :=
  zip_with calc_safe_growth bal (shift 4 bal).








(** ** calculate_8q_averages *)

(** [group[metrics].rolling(8).mean().iloc[-1]] for one metric. *)
Definition last_rolling_mean_8 (vals : list float) : float :=
  default NaN (list.last (rolling_mean 8 vals)).

(** One output record per institution with at least eight rows. *)
Definition avg_8q_record (df : DataFrame) (metrics : list string) (cert : Z)
  : option (Z * gmap string float) :=
  let group := filter (λ r, CERT r = cert) df in
  if bool_decide (length group < 8)%nat then None
  else
    let sorted := sort_by_REPDTE REPDTE group in
    Some (cert, list_to_map ((λ m, (m, last_rolling_mean_8 (column sorted m))) <$> metrics)).

Definition calculate_8q_averages (proc_df : DataFrame) : list (Z * gmap string float) :=
  omap (avg_8q_record proc_df (elements (columns proc_df))) (group_keys proc_df).

(** ** Field resolution layer (create_derived_metrics, part A) *)

Definition FDIC_FALLBACK_MAP : list (string * list string) :=
  [ ("LNOTHPCS",    ["RCFD1545"; "RCON1545"; "LNOTHER"]);
    ("LNOTHNONDEP", ["RCFDJ454"; "RCONJ454"]);
    ("RCFDJ466", ["FFIEC"]); ("RCFDJ467", ["FFIEC"]);
    ("RCFDJ468", ["FFIEC"]); ("RCFDJ469", ["FFIEC"]);
    ("RCFDJ470", ["FFIEC"]); ("RCFDJ471", ["FFIEC"]);
    ("RCFDJ472", ["FFIEC"]); ("RCFDJ474", ["FFIEC"]);
    ("LNCONAUTO", ["LNAUTO"]);
    ("LNCONCC",   ["LNCRCD"]);
    ("LNCONOTHX", ["DERIVED"]);
    ("LNREOTH",  ["LNRENROT"]);
    ("NALRERES", ["NARERES"]);
    ("P9RENRES", ["P9RENROT"]) ].

(** [row.get(c, 0)] *)
Definition row_get0 (row : gmap string float) (c : string) : float :=
  default (F 0) (row !! c).

(** The residual consumer balance, [max(0, LNCON - LNAUTO - LNCRCD)]. *)
Definition residual (row : gmap string float) : float :=
  max0 (fsub (fsub (row_get0 row "LNCON") (row_get0 row "LNAUTO")) (row_get0 row "LNCRCD")).

(** The [for s in src] loop of [resolve]; [pd.notna(None)] is false. *)
Fixpoint resolve_loop (row : gmap string float) (src : list string) : float :=
  match src with
  | [] => F 0
  | s :: rest =>
      match row !! s with
      | Some val => if notna val && fneb val (F 0) then val else resolve_loop row rest
      | None => resolve_loop row rest
      end
  end.

Definition resolve (row : gmap string float) (src : list string) (fld : string) : float :=
  if bool_decide ("DERIVED" ∈ src) then
    if bool_decide (fld = "LNCONOTHX") then residual row else F 0
  else resolve_loop row src.

(** One iteration of the loop over the fallback map. *)
Definition resolve_field (df : DataFrame) (entry : string * list string) : DataFrame :=
  if bool_decide ("FFIEC" ∈ entry.2) then df
  else set_column df entry.1 ((λ r, resolve (row_series df r) entry.2 entry.1) <$> df).

Definition field_resolution_layer (df : DataFrame) : DataFrame :=
  foldl resolve_field df FDIC_FALLBACK_MAP.




(** The resolution rule in the words of the specification: an ordered list
    of candidates, each a raw field or the derived computation; the first
    candidate whose value is present and non-zero wins, else zero. *)
Inductive candidate : Type :=
  | RawField (code : string)
  | Derived.


Definition candidate_value (row : gmap string float) (c : candidate) : float :=
  match c with
  | RawField code => default NaN (row !! code)
  | Derived => residual row
  end.

Fixpoint first_present_nonzero (row : gmap string float) (cands : list candidate) : float :=
  match cands with
  | [] => F 0
  | c :: rest =>
      let v := candidate_value row c in
      if notna v && fneb v (F 0) then v else first_present_nonzero row rest
  end.


(** ** YTD to quarterly conversion (create_derived_metrics, part B) *)

(** [pat in s] on strings. *)
Fixpoint contains (pat s : string) : bool :=
  String.prefix pat s ||
  match s with
  | EmptyString => false
  | String _ s' => contains pat s'
  end.

Definition is_ytd_field (col : string) : bool :=
  String.prefix "NT" col || contains "EINTEXP" col.

Definition ytd_fields (df : DataFrame) : list string :=
  filter (λ c, is_ytd_field c) (elements (columns df)).

(** [group.sort_values('REPDTE')], rows paired with their index label. *)
Definition sorted_group (df : DataFrame) (cert : Z) : list (nat * Row) :=
  sort_by_REPDTE (λ ir, REPDTE ir.2) (group_of df cert).

(** [quarterly_vals] after the Q1 overwrite. *)
Definition quarterly_vals (group : list (nat * Row)) (col : string) : list float :=
  zip_with (λ ir d, if bool_decide (quarter (REPDTE ir.2) = 1) then cell ir.2 col else d)
           group (diff ((λ ir, cell ir.2 col) <$> group)).

(** [df.loc[idx, c] = vals]: label-aligned assignment. *)
Definition loc_assign (df : DataFrame) (c : string) (idx : list nat) (vals : list float)
  : DataFrame :=
  foldl (λ d iv, alter (with_cell c iv.2) iv.1 d) df (zip idx vals).

(** The last statement of the inner loop, for one column. *)
Definition write_quarterly (group : list (nat * Row)) (acc : DataFrame) (col : string)
  : DataFrame :=
  loc_assign acc (col +:+ "_Q") group.*1 (quarterly_vals group col).

Definition ytd_group (df : DataFrame) (acc : DataFrame) (cert : Z) : DataFrame :=
  foldl (write_quarterly (sorted_group df cert)) acc (ytd_fields df).

Definition ytd_to_quarterly (df : DataFrame) : DataFrame :=
  foldl (ytd_group df) df (group_keys df).

(** The converted cell [col_Q] of the row labelled [i]. *)
Definition quarterly_cell (df : DataFrame) (i : nat) (col : string) : float :=
  default NaN ((λ r, cell r (col +:+ "_Q")) <$> ytd_to_quarterly df !! i).

(** The value the conversion prescribes at position [k] of a sorted group. *)
Definition quarterly_at (group : list (nat * Row)) (col : string) (k : nat) (r : Row)
  : float :=
  if bool_decide (quarter (REPDTE r) = 1) then cell r col
  else match k with
       | O => NaN
       | S k' => match group !! k' with
                 | Some prev => fsub (cell r col) (cell prev.2 col)
                 | None => NaN
                 end
       end.

(** One institution's four cumulative filings of a year, out of order and
    interleaved with another institution's rows. *)
Definition ytd_row (cert : Z) (q : Z) (ytd : Z) : Row :=
  {| CERT := cert;
     REPDTE := {| year := 2024; month := 3 * q; day := 30 |};
     cells := {[ "NTLNLS" := F ytd ]} |}.

Definition ytd_sample : DataFrame :=
  [ytd_row 7 3 45; ytd_row 9 1 1000; ytd_row 7 1 10; ytd_row 7 4 70;
   ytd_row 9 2 3000; ytd_row 7 2 25].

(** Parts A and B of [create_derived_metrics]; the later parts add further
    columns (totals, category balances, ratios) and leave these alone. *)
Definition create_derived_metrics (df : DataFrame) : DataFrame :=
  if bool_decide (df = []) then df
  else ytd_to_quarterly (field_resolution_layer df).

(** ** Bulk source healer (FFIECBulkLoader)

    The network, the regular-expression scan of a page for hidden inputs
    and the zip/csv reader are library code; they enter as the fields of
    an environment.  Everything the loader does with their results is
    modelled, and every externally visible step is recorded in a trace. *)

Definition target_fields : list string :=
  ["RCFD1545"; "RCON1545"; "RCFDJ454"; "RCONJ454";
   "RCFDJ466"; "RCONJ466"; "RCFDJ467"; "RCONJ467";
   "RCFDJ468"; "RCONJ468"; "RCFDJ469"; "RCONJ469";
   "RCFDJ470"; "RCONJ470"; "RCFDJ471"; "RCONJ471";
   "RCFDJ472"; "RCONJ472"; "RCFDJ474"; "RCONJ474"].

Record Response : Type :=
  { status_code : Z;
    body : string;            (* [r.text] / [r.content] *)
    content_type : string }.  (* [r.headers.get('Content-Type', '')] *)

Inductive Request : Type :=
  | GET
  | POST (data : gmap string string).

Record Env : Type :=
  { (** the reply to a request sent on the session [sid]; [None] when
        [requests] raises (timeout, connection error) *)
    server : nat → Request → option Response;
    (** [re.findall] over the page: the hidden inputs by name *)
    extract_all_hidden_fields : string → gmap string string;
    (** [zipfile] + [csv.DictReader] over the schedule members: per data
        row the certificate number and the numeric fields that are present
        and parse; [None] when reading the archive raises *)
    read_archive : string → option (list (Z * gmap string float)) }.

Definition lower_ascii (a : Ascii.ascii) : Ascii.ascii :=
  let n := Ascii.nat_of_ascii a in
  if (65 <=? n)%nat && (n <=? 90)%nat then Ascii.ascii_of_nat (n + 32) else a.

Fixpoint lower (s : string) : string :=
  match s with
  | EmptyString => EmptyString
  | String a s' => String (lower_ascii a) (lower s')
  end.

Definition pad2 (z : Z) : string :=
  if bool_decide (0 ≤ z < 10) then "0" +:+ pretty z else pretty z.

(** [date_obj.strftime("%m/%d/%Y")] *)
Definition date_fmt (d : Timestamp) : string :=
  pad2 (month d) +:+ "/" +:+ pad2 (day d) +:+ "/" +:+ pretty (year d).

(** What the loader does that can be observed from outside. *)
Inductive action : Type :=
  | Assess (needs : bool)          (* [_quarter_needs_patching] evaluated *)
  | CacheHit
  | OpenSession (sid : nat)        (* [requests.Session()] *)
  | Send (sid : nat) (req : Request)
  | SaveDebugHtml
  | Sleep (seconds : Z)
  | OpenArchive                    (* [zipfile.ZipFile(...)] *)
  | WriteCache
  | LogError (msg : string)
  | LogWarning (msg : string).

Definition REPORT_TYPE : string := "Reports of Condition and Income".

Definition is_zip (r : Response) : bool :=
  String.prefix "PK" (body r)
  || contains "zip" (lower (content_type r))
  || contains "octet-stream" (lower (content_type r)).

Definition payload_step2 (fields_step1 : gmap string string) (date_str : string)
  : gmap string string :=
  <["ExportFormatDropDownList" := "TXT"]>
    (<["DatesDropDownList" := date_str]>
       (<["ListBox1" := REPORT_TYPE]>
          (<["__EVENTARGUMENT" := ""]>
             (<["__EVENTTARGET" := "DatesDropDownList"]> fields_step1)))).

Definition payload_step3 (fields_step2 : gmap string string) (date_str : string)
  : gmap string string :=
  delete "__EVENTTARGET"
    (<["Download_0" := "Download"]>
       (<["ExportFormatDropDownList" := "TXT"]>
          (<["DatesDropDownList" := date_str]>
             (<["ListBox1" := REPORT_TYPE]> fields_step2)))).

(** [_download_with_webforms]: one attempt on a session of its own. *)
Definition download_with_webforms (env : Env) (sid : nat) (date_str : string)
  : option Response * list action :=
  match server env sid GET with
  | None => (None, [OpenSession sid; Send sid GET; LogError "Exception"])
  | Some r1 =>
    if bool_decide (status_code r1 ≠ 200) then
      (None, [OpenSession sid; Send sid GET; LogError "Step 1 GET failed"])
    else
    let fields_step1 := extract_all_hidden_fields env (body r1) in
    if bool_decide (fields_step1 !! "__VIEWSTATE" = None) then
      (None, [OpenSession sid; Send sid GET;
              LogError "Failed to parse ViewState from Step 1."])
    else
    let p2 := payload_step2 fields_step1 date_str in
    match server env sid (POST p2) with
    | None => (None, [OpenSession sid; Send sid GET; Send sid (POST p2);
                      LogError "Exception"])
    | Some r2 =>
      if bool_decide (status_code r2 ≠ 200) then
        (None, [OpenSession sid; Send sid GET; Send sid (POST p2);
                LogError "Step 2 POST (Date Select) failed"])
      else
      let fields_step2 := extract_all_hidden_fields env (body r2) in
      if bool_decide (fields_step2 !! "__VIEWSTATE" = None) then
        (None, [OpenSession sid; Send sid GET; Send sid (POST p2);
                LogError "Failed to parse updated ViewState from Step 2."])
      else
      let p3 := payload_step3 fields_step2 date_str in
      match server env sid (POST p3) with
      | None => (None, [OpenSession sid; Send sid GET; Send sid (POST p2);
                        Send sid (POST p3); LogError "Exception"])
      | Some r3 =>
        if bool_decide (status_code r3 = 200) then
          if is_zip r3 then
            (Some r3, [OpenSession sid; Send sid GET; Send sid (POST p2);
                       Send sid (POST p3)])
          else
            (None, [OpenSession sid; Send sid GET; Send sid (POST p2);
                    Send sid (POST p3); SaveDebugHtml;
                    LogWarning "Step 3 returned HTML, not ZIP."])
        else
          (None, [OpenSession sid; Send sid GET; Send sid (POST p2);
                  Send sid (POST p3); LogError "Step 3 Download POST failed"])
      end
    end
  end.

(** The retry loop of [fetch_quarter_data]: [for attempt in range(n)],
    leaving at the first response, sleeping two seconds after a failure.
    Sessions are numbered in the order they are opened. *)
Fixpoint download_attempts (env : Env) (date_str : string) (n : nat) (sid : nat)
  : option Response * list action * nat :=
  match n with
  | O => (None, [], sid)
  | S n' =>
      let '(r, acts) := download_with_webforms env sid date_str in
      match r with
      | Some resp => (Some resp, acts, S sid)
      | None =>
          let '(r', acts', sid') := download_attempts env date_str n' (S sid) in
          (r', acts ++ Sleep 2 :: acts', sid')
      end
  end.

(** The state of the per-period cache file. *)
Inductive cache_file : Type :=
  | Corrupt                    (* [pd.read_csv] raises *)
  | NoCertColumn               (* readable, but without a CERT column *)
  | Table (df : DataFrame).

Record World : Type :=
  { next_session : nat;
    cache : Timestamp → option cache_file;
    trace : list (Timestamp * action) }.

Definition record (d : Timestamp) (acts : list action) (w : World) : World :=
  {| next_session := next_session w; cache := cache w;
     trace := trace w ++ ((λ a, (d, a)) <$> acts) |}.

(** [cert_data_map]: a dict in insertion order, one entry per institution. *)
Fixpoint upsert (cert : Z) (fields : gmap string float)
    (m : list (Z * gmap string float)) : list (Z * gmap string float) :=
  match m with
  | [] => [(cert, fields)]
  | (c, old) :: rest =>
      if bool_decide (c = cert) then (c, fields ∪ old) :: rest
      else (c, old) :: upsert cert fields rest
  end.

Definition add_archive_row (peer_certs : gset Z)
    (m : list (Z * gmap string float)) (row : Z * gmap string float)
  : list (Z * gmap string float) :=
  if bool_decide (row.1 ∈ peer_certs)
  then upsert row.1 (filter (λ kv, kv.1 ∈ target_fields) row.2) m
  else m.

Definition cert_data_map (peer_certs : gset Z) (rows : list (Z * gmap string float))
  : list (Z * gmap string float) :=
  foldl (add_archive_row peer_certs) [] rows.

Definition frame_of_map (date_obj : Timestamp) (m : list (Z * gmap string float))
  : DataFrame :=
  (λ e, {| CERT := e.1; REPDTE := date_obj; cells := e.2 |}) <$> m.

(** Everything after the cache check of [fetch_quarter_data]. *)
Definition download_quarter (env : Env) (date_obj : Timestamp) (peer_certs : gset Z)
    (w : World) : DataFrame * World :=
  let '(r, acts, sid') :=
    download_attempts env (date_fmt date_obj) 3 (next_session w) in
  let w1 := {| next_session := sid'; cache := cache w;
               trace := trace w ++ ((λ a, (date_obj, a)) <$> acts) |} in
  match r with
  | None => ([], w1)
  | Some resp =>
      let w2 := record date_obj [OpenArchive] w1 in
      match read_archive env (body resp) with
      | None => ([], record date_obj [LogError "Zip processing failed"] w2)
      | Some rows =>
          let m := cert_data_map peer_certs rows in
          if bool_decide (m = []) then ([], w2)
          else
            let df_q := frame_of_map date_obj m in
            (df_q,
             {| next_session := next_session w2;
                cache := <[date_obj := Some (Table df_q)]> (cache w2);
                trace := trace w2 ++ [(date_obj, WriteCache)] |})
      end
  end.

Definition fetch_quarter_data (env : Env) (date_obj : Timestamp) (peer_certs : gset Z)
    (w : World) : DataFrame * World :=
  match cache w date_obj with
  | Some (Table df_cache) =>
      (filter (λ r, CERT r ∈ peer_certs) df_cache, record date_obj [CacheHit] w)
  | _ => download_quarter env date_obj peer_certs w
  end.

(** [_quarter_needs_patching] *)
Definition canary_fields : list string := ["RCFD1545"; "LNOTHPCS"; "RCFDJ466"].

Definition missing_or_zero (x : float) : bool := isna x || feqb x (F 0).

(** The canary columns the frame has, and the two counters of the loop
    over them, for the rows of one period. *)
Definition check_cols (df_fdic : DataFrame) : list string :=
  filter (λ c, has_column df_fdic c) canary_fields.

Definition canary_missing (df_fdic : DataFrame) (date_obj : Timestamp) : nat :=
  let q_data := filter (λ r, REPDTE r = date_obj) df_fdic in
  sum_list ((λ c, length (filter (λ v, missing_or_zero v) (column q_data c)))
              <$> check_cols df_fdic).

Definition canary_total (df_fdic : DataFrame) (date_obj : Timestamp) : nat :=
  let q_data := filter (λ r, REPDTE r = date_obj) df_fdic in
  sum_list ((λ c, length (column q_data c)) <$> check_cols df_fdic).

(** The queried cells that are present and non-zero. *)
Definition canary_present (df_fdic : DataFrame) (date_obj : Timestamp) : nat :=
  let q_data := filter (λ r, REPDTE r = date_obj) df_fdic in
  sum_list ((λ c, length (filter (λ v, negb (missing_or_zero v)) (column q_data c)))
              <$> check_cols df_fdic).

Definition quarter_needs_patching (df_fdic : DataFrame) (date_obj : Timestamp) : bool :=
  if bool_decide (df_fdic = []) then true
  else
    let q_data := filter (λ r, REPDTE r = date_obj) df_fdic in
    if bool_decide (q_data = []) then false
    else
      if bool_decide (check_cols df_fdic = []) then true
      else
        let missing := canary_missing df_fdic date_obj in
        let total_cells := canary_total df_fdic date_obj in
        if bool_decide (0 < total_cells)%nat
        then fgtb (fdiv (F (Z.of_nat missing)) (F (Z.of_nat total_cells)))
                  (Fin (Q2Qc (1 # 2)))
        else true.

(** The periods [heal_dataset] walks over: the eight newest distinct ones. *)
Definition heal_dates (df_fdic : DataFrame) : list Timestamp :=
  take 8 (merge_sort ts_ge (remove_dups (REPDTE <$> df_fdic))).

Fixpoint heal_loop (env : Env) (df_fdic : DataFrame) (peer_certs : gset Z)
    (dates : list Timestamp) (w : World) : list DataFrame * World :=
  match dates with
  | [] => ([], w)
  | dt :: rest =>
      if negb (quarter_needs_patching df_fdic dt)
      then heal_loop env df_fdic peer_certs rest (record dt [Assess false] w)
      else
        let '(df_ffiec_q, w1) :=
          fetch_quarter_data env dt peer_certs (record dt [Assess true] w) in
        if bool_decide (df_ffiec_q = [])
        then heal_loop env df_fdic peer_certs rest
               (record dt [LogWarning "[Failed] No FFIEC data"] w1)
        else
          let '(frames, w2) := heal_loop env df_fdic peer_certs rest w1 in
          (df_ffiec_q :: frames, w2)
  end.

(** The healing merge. *)

(** [df_p[col]] aligned on the (CERT, REPDTE) index of the main frame. *)
Definition patch_lookup (df_p : DataFrame) (cert : Z) (date : Timestamp) (col : string)
  : float :=
  match list_find (λ r, CERT r = cert ∧ REPDTE r = date) df_p with
  | Some (_, r) => cell r col
  | None => NaN
  end.

(** One cell: [fillna], then the zero fix of [mask_fix]. *)
Definition heal_cell (existing recovered : float) : float :=
  let filled := fillna existing recovered in
  if feqb filled (F 0) && notna recovered && fneb recovered (F 0)
  then recovered else filled.

Definition merge_column (df_p : DataFrame) (df_main : DataFrame) (col : string)
  : DataFrame :=
  if has_column df_p col then
    if negb (has_column df_main col) then
      (λ r, with_cell col (patch_lookup df_p (CERT r) (REPDTE r) col) r) <$> df_main
    else
      (λ r, with_cell col
              (heal_cell (cell r col) (patch_lookup df_p (CERT r) (REPDTE r) col)) r)
        <$> df_main
  else df_main.

Definition merge_patch (df_main df_p : DataFrame) : DataFrame :=
  foldl (merge_column df_p) df_main target_fields.

(** What the merge loop over [cols] does to one row of the main frame. *)
Definition healed_row (df_p : DataFrame) (cols : list string) (r : Row) : Row :=
  foldl (λ r' col,
           if has_column df_p col
           then with_cell col
                  (heal_cell (cell r' col) (patch_lookup df_p (CERT r') (REPDTE r') col)) r'
           else r')
        r cols.

Inductive ric_status : Type := FAILED | SUCCESS.

(** [heal_dataset]: the healed frame and the value written to the
    FFIEC_RIC_STATUS column of all its rows ([None]: column not written). *)
Definition heal_dataset (env : Env) (df_fdic : DataFrame) (peer_certs : gset Z)
    (w : World) : DataFrame * option ric_status * World :=
  if bool_decide (df_fdic = []) then (df_fdic, None, w)
  else
    let '(ffiec_frames, w') :=
      heal_loop env df_fdic peer_certs (heal_dates df_fdic) w in
    if bool_decide (ffiec_frames = []) then (df_fdic, Some FAILED, w')
    else (merge_patch df_fdic (mjoin ffiec_frames), Some SUCCESS, w').

(** The cache is owned by the healer: the file of a period holds rows of
    that period only (it is written from [frame_of_map date_obj]). *)
Definition cache_wf (w : World) : Prop :=
  ∀ d df, cache w d = Some (Table df) → Forall (λ r, REPDTE r = d) df.

(** The number of distinct periods of the table strictly newer than [d]. *)
Definition newer_periods (df_fdic : DataFrame) (d : Timestamp) : nat :=
  length (filter (λ x, ts_lt d x) (remove_dups (REPDTE <$> df_fdic))).








(** The frames the healing loop collects, and the patch they are merged from. *)
Definition recovered_frames (env : Env) (df_fdic : DataFrame) (peer_certs : gset Z)
    (w : World) : list DataFrame :=
  (heal_loop env df_fdic peer_certs (heal_dates df_fdic) w).1.

Definition healed (env : Env) (df_fdic : DataFrame) (peer_certs : gset Z) (w : World)
  : DataFrame :=
  (heal_dataset env df_fdic peer_certs w).1.1.

(** A server that completes the three-step exchange with an archive holding
    one record, one that serves pages without hidden inputs, and a world
    with an empty cache. *)
Definition env_ok : Env :=
  {| server := λ _ _, Some {| status_code := 200; body := "PK-archive";
                              content_type := "application/x-zip-compressed" |};
     extract_all_hidden_fields := λ _, {[ "__VIEWSTATE" := "abc" ]};
     read_archive := λ _, Some [(34221, {[ "RCFD1545" := F 500; "RCFD2170" := F 9 ]})] |}.

Definition env_no_tokens : Env :=
  {| server := λ _ _, Some {| status_code := 200; body := "<html>maintenance</html>";
                              content_type := "text/html" |};
     extract_all_hidden_fields := λ _, ∅;
     read_archive := λ _, None |}.

Definition world0 : World :=
  {| next_session := 0; cache := λ _, None; trace := [] |}.

(** Ten quarterly filings of one institution, all with a zero-filled
    securities-based-lending cell; the two oldest are 2022-Q1 and 2022-Q2. *)
Definition filing (y q : Z) : Row :=
  {| CERT := 34221;
     REPDTE := {| year := y; month := 3 * q; day := 30 |};
     cells := {[ "RCFD1545" := F 0; "LNLS" := F 100 ]} |}.

Definition ten_quarters : DataFrame :=
  [filing 2022 1; filing 2022 2; filing 2022 3; filing 2022 4;
   filing 2023 1; filing 2023 2; filing 2023 3; filing 2023 4;
   filing 2024 1; filing 2024 2].

(** A filing whose securities-based-lending cell is zero-filled. *)
Definition zero_row : Row :=
  {| CERT := 34221;
     REPDTE := {| year := 2024; month := 6; day := 30 |};
     cells := {[ "RCFD1545" := F 0; "LNLS" := F 100 ]} |}.

(** A one-row table whose canary cells are present and non-zero for
    exactly half of the queried cells. *)
Definition half_row : Row :=
  {| CERT := 34221;
     REPDTE := {| year := 2024; month := 6; day := 30 |};
     cells := {[ "RCFD1545" := F 5; "LNOTHPCS" := F 0 ]} |}.

(** ** Primary source client (FDICDataFetcher)

    The REST API enters as two functions: per institution, the records of
    the main call and of the separate LNCI call ([None] when the request
    raises).  A record carries its REPDTE as [pd.to_datetime] would parse
    it ([None] when it cannot be parsed) and its numeric fields. *)

Definition FDIC_FIELDS_TO_FETCH : list string :=
  ["CERT"; "NAME"; "REPDTE"; "ASSET"; "LIAB"; "DEP"; "EQ"; "ROA"; "ROE";
   "NIMY"; "EEFFR"; "NONIIAY"; "ELNATRY"; "EINTEXP"; "RBCT1CER"; "RBCT1J";
   "RBCT2"; "RWAJ"; "RBCRWAJ"; "RB2LNRES"; "EQCS"; "EQSUR"; "EQUP";
   "EQCCOMPI"; "EQPP"; "LNATRES"; "OTHBOR"; "MUTUAL"; "FREPP"; "LNLS";
   "LNLSNET"; "LNCI"; "LNRECONS"; "LNREMULT"; "LNRENROW"; "LNRENROT";
   "LNREAG"; "LNRERES"; "LNRELOC"; "LNCON"; "LNCRCD"; "LNAUTO"; "LNOTHER";
   "LS"; "LNAG"; "LNREOTH"; "LNOTHPCS"; "LNOTHNONDEP"; "LNCONAUTO";
   "LNCONCC"; "LNCONOTHX"; "NTLNLS"; "NCLNLS"; "NTCI"; "NTRECONS";
   "NTREMULT"; "NTRENROT"; "NTREAG"; "NTRENRES"; "NTRERES"; "NTRELOC";
   "NTCON"; "NTCRCD"; "NTAUTO"; "NTLS"; "NTOTHER"; "NTAG"; "NTCONOTH";
   "P3LNLS"; "P3CI"; "P3RECONS"; "P3LREMUL"; "P3RENROT"; "P3RENROW";
   "P3REAG"; "P3RENRES"; "P3RERES"; "P3RELOC"; "P3CON"; "P3CRCD"; "P3AUTO";
   "P3LS"; "P3AG"; "P3OTHLN"; "P3CONOTH"; "P9LNLS"; "P9CI"; "P9RECONS";
   "P9REMULT"; "P9RENROT"; "P9RENROW"; "P9REAG"; "P9RENRES"; "P9RERES";
   "P9RELOC"; "P9CON"; "P9CRCD"; "P9AUTO"; "P9LS"; "P9AG"; "P9OTHLN";
   "P9CONOTH"; "NACI"; "NARECONS"; "NAREMULT"; "NARENROT"; "NARENROW";
   "NAREAG"; "NARENRES"; "NARERES"; "NARELOC"; "NACON"; "NACRCD"; "NAAUTO";
   "NALS"; "NAAG"; "NAOTHLN"; "NACONOTH"; "NALRERES"].

Record ApiRecord : Type :=
  { api_REPDTE : option Timestamp;
    api_cells : gmap string float }.

Record Api : Type :=
  { main_api : Z → option (list ApiRecord);
    lnci_api : Z → option (list ApiRecord) }.

Record DashboardConfig : Type :=
  { subject_bank_cert : Z;
    peer_bank_certs : list Z }.

Inductive level : Type := INFO | WARNING | ERROR.

(** A call either returns or lets an exception escape. *)
Inductive outcome (A : Type) : Type :=
  | Returns (a : A)
  | Raises (exc : string).
Arguments Returns {A} a.
Arguments Raises {A} exc.

Definition certs_to_fetch (cfg : DashboardConfig) : list Z :=
  subject_bank_cert cfg :: peer_bank_certs cfg.

(** [REPDTE.astype(str)] *)
Definition iso_date (d : Timestamp) : string :=
  pretty (year d) +:+ "-" +:+ pad2 (month d) +:+ "-" +:+ pad2 (day d).

(** The rows of the LNCI frame: CERT, REPDTE, LNCI. *)
Record LnciRow : Type := { l_CERT : Z; l_REPDTE : Timestamp; l_LNCI : float }.

(** One iteration of the loop of [fetch_lnci_separately]; an unparsable
    date or a reply without any LNCI field raises inside the [try] and the
    institution is skipped. *)
Definition lnci_of_cert (api : Api) (cert : Z) : list LnciRow * list (level * string) :=
  match lnci_api api cert with
  | None => ([], [(ERROR, "Error fetching LNCI")])
  | Some [] => ([], [(WARNING, "No LNCI data returned")])
  | Some data =>
      match mapM api_REPDTE data with
      | None => ([], [(ERROR, "Error fetching LNCI")])
      | Some dates =>
          if forallb (λ rec, bool_decide (api_cells rec !! "LNCI" = None)) data
          then ([], [(ERROR, "Error fetching LNCI")])
          else
            (zip_with (λ rec d, {| l_CERT := cert; l_REPDTE := d;
                                   l_LNCI := default NaN (api_cells rec !! "LNCI") |})
                      data dates,
             [(INFO, "LNCI fetched")])
      end
  end.

Definition fetch_lnci_separately (api : Api) (certs : list Z)
  : list LnciRow * list (level * string) :=
  let per_cert := lnci_of_cert api <$> certs in
  (mjoin (fst <$> per_cert), mjoin (snd <$> per_cert)).

(** Step 1: the main call per institution. *)
Definition main_of_cert (api : Api) (cert : Z)
  : list (Z * ApiRecord) * list Z * list (level * string) :=
  match main_api api cert with
  | None => ([], [cert], [(ERROR, "Error fetching FDIC data")])
  | Some data => ((λ rec, (cert, rec)) <$> data, [], [])
  end.

Definition all_bank_data (api : Api) (certs : list Z) : list (Z * ApiRecord) :=
  mjoin ((λ c, (main_of_cert api c).1.1) <$> certs).

Definition failed_certs (api : Api) (certs : list Z) : list Z :=
  mjoin ((λ c, (main_of_cert api c).1.2) <$> certs).

(** Step 2: the combined frame with REPDTE converted; [None] when the
    conversion raises. *)
Definition combine (data : list (Z * ApiRecord)) : option DataFrame :=
  mapM (λ cr, d ← api_REPDTE cr.2;
              Some {| CERT := cr.1; REPDTE := d; cells := api_cells cr.2 |}) data.

Definition main_keys (combined_df : DataFrame) : gset (Z * string) :=
  list_to_set ((λ r, (CERT r, iso_date (REPDTE r))) <$> combined_df).

Definition lnci_keys (lnci_df : list LnciRow) : gset (Z * string) :=
  list_to_set ((λ l, (l_CERT l, iso_date (l_REPDTE l))) <$> lnci_df).

Definition overlap (combined_df : DataFrame) (lnci_df : list LnciRow) : gset (Z * string) :=
  main_keys combined_df ∩ lnci_keys lnci_df.

(** [pd.merge(combined_df, lnci_df, how='left')] on keys compared by [same]. *)
Definition merge_left (same : Row → LnciRow → bool)
    (combined_df : DataFrame) (lnci_df : list LnciRow) : DataFrame :=
  combined_df ≫= λ r,
    match filter (λ l, same r l = true) lnci_df with
    | [] => [with_cell "LNCI" NaN r]
    | ms => (λ l, with_cell "LNCI" (l_LNCI l) r) <$> ms
    end.

Definition same_key (r : Row) (l : LnciRow) : bool :=
  bool_decide (CERT r = l_CERT l ∧ REPDTE r = l_REPDTE l).

Definition same_key_str (r : Row) (l : LnciRow) : bool :=
  bool_decide (CERT r = l_CERT l ∧ iso_date (REPDTE r) = iso_date (l_REPDTE l)).

(** [combined_df['LNCI'].notna().sum()] *)
Definition lnci_count (df : DataFrame) : nat :=
  length (filter (λ r, notna (cell r "LNCI") = true) df).

(** Step 3: rejoin the LNCI series. *)
Definition merge_lnci (combined_df : DataFrame) (lnci_df : list LnciRow)
  : DataFrame * list (level * string) :=
  if bool_decide (lnci_df = []) then
    ((λ r, with_cell "LNCI" NaN r) <$> combined_df,
     [(WARNING, "LNCI fetch failed, using NaN values")])
  else
    let log1 :=
      if bool_decide (size (overlap combined_df lnci_df) = 0)%nat
      then [(INFO, "Overlapping keys"); (ERROR, "NO OVERLAPPING KEYS - merge will fail!")]
      else [(INFO, "Overlapping keys")] in
    let merged := merge_left same_key combined_df lnci_df in
    if bool_decide (lnci_count merged = 0)%nat then
      (merge_left same_key_str merged lnci_df,
       log1 ++ [(WARNING, "LNCI merge produced all NaN - investigating...");
                (INFO, "Retry result")])
    else (merged, log1).

(** Step 4: every fetched field gets a column; key and name columns are
    not numeric cells and are left out here. *)
Definition numeric_fields : list string :=
  filter (λ f, f ∉ ["CERT"; "NAME"; "REPDTE"]) FDIC_FIELDS_TO_FETCH.

Definition add_missing_columns (df : DataFrame) : DataFrame :=
  foldl (λ d field,
           if has_column d field then d
           else (λ r, with_cell field NaN r) <$> d)
        df numeric_fields.

Definition row_le (a b : Row) : Prop :=
  CERT a < CERT b ∨ (CERT a = CERT b ∧ ts_le (REPDTE a) (REPDTE b)).

Global Instance row_le_dec : RelDecision row_le.
Proof. intros a b. unfold row_le. apply _. Defined.

(** [fetch_all_banks]: the frame and the failed institutions, or the
    exception that escapes; the log; the world after the healer ran. *)
Definition fetch_all_banks (cfg : DashboardConfig) (api : Api) (env : Env) (w : World)
  : outcome (DataFrame * list Z) * list (level * string) * World :=
  let certs := certs_to_fetch cfg in
  let data := all_bank_data api certs in
  let failed := failed_certs api certs in
  let log0 := mjoin ((λ c, (main_of_cert api c).2) <$> certs) in
  if bool_decide (data = []) then (Returns ([], failed), log0, w)
  else
    match combine data with
    | None => (Raises "ValueError", log0, w)
    | Some combined_df =>
        let '(lnci_df, log_l) := fetch_lnci_separately api certs in
        let '(merged, log_m) := merge_lnci combined_df lnci_df in
        let '(healed_df, _, w') := heal_dataset env merged (list_to_set certs) w in
        (Returns (merge_sort row_le (add_missing_columns healed_df), failed),
         log0 ++ log_l ++ log_m, w')
    end.

(** A main table and an LNCI series for the same institution whose dates
    never coincide. *)
Definition cfg_one : DashboardConfig :=
  {| subject_bank_cert := 34221; peer_bank_certs := [] |}.

Definition api_disjoint : Api :=
  {| main_api := λ _,
       Some [ {| api_REPDTE := Some {| year := 2024; month := 6; day := 30 |};
                 api_cells := {[ "LNLS" := F 100 ]} |} ];
     lnci_api := λ _,
       Some [ {| api_REPDTE := Some {| year := 2024; month := 3; day := 31 |};
                 api_cells := {[ "LNCI" := F 40 ]} |} ] |}.

(** * Verified properties *)

(** ** Facts about float cells *)

Ltac by_compute := apply (bool_decide_unpack _); vm_compute; exact I.

Lemma feqb_zero x : feqb x (F 0) = true ↔ x = F 0.
Proof.
  destruct x as [q|s|]; simpl; split; try discriminate.
  - intros H. apply bool_decide_eq_true in H. by subst.
  - intros [= ->]. by apply bool_decide_eq_true.
Qed.

Lemma fillna_notna x fill : isna x = false → fillna x fill = x.
Proof. unfold fillna. by intros ->. Qed.

Lemma fillna_isna x fill : isna x = true → fillna x fill = fill.
Proof. unfold fillna. by intros ->. Qed.


(** ** Safe ratio *)

Lemma safe_divide_scalar_zero n fill :
  safe_divide (Scalar n) (Scalar (F 0)) fill = Some (Scalar fill).
Proof. reflexivity. Qed.

Lemma safe_divide_scalar_none n fill :
  safe_divide (Scalar n) PyNone fill = Some (Scalar fill).
Proof. reflexivity. Qed.




Lemma safe_divide_series_form n d fill :
  safe_divide (Series n) (Series d) fill = Some (Series (safe_divide_series n d fill)).
Proof. reflexivity. Qed.

(** With a Series numerator and a scalar zero denominator the quotient is
    taken as it is: an infinity where the numerator is not zero. *)
Lemma safe_divide_mixed_zero_denominator :
  safe_divide (Series [F 1; F 0]) (Scalar (F 0)) (F 0) = Some (Series [Inf false; F 0]).
Proof. reflexivity. Qed.

(** C4: [_safe_divide] is meant to return the fill value whenever the
    denominator is zero or missing, in scalar and series form alike.  The
    series form does ([safe_divide_series_fill]); the scalar form guards
    only [denominator != 0], which a missing (NaN) denominator passes, so
    the quotient NaN is returned instead of the fill value 0.0. *)
Theorem safe_divide_scalar_nan_denominator :
  safe_divide (Scalar (F 1)) (Scalar NaN) (F 0) = Some (Scalar NaN)
  ∧ safe_divide (Series [F 1]) (Series [NaN]) (F 0) = Some (Series [F 0]).
Proof. split; reflexivity. Qed.

(** ** Growth *)

Lemma shift_lookup_ge k l i :
  shift k l !! (i + k)%nat = if bool_decide (i + k < length l)%nat then l !! i else None.
Proof.
  unfold shift. case_bool_decide as H.
  - rewrite lookup_take_lt by done.
    rewrite lookup_app_r by (rewrite length_replicate; lia).
    rewrite length_replicate. f_equal. lia.
  - apply lookup_ge_None. rewrite length_take. lia.
Qed.

(** C7: the growth of a balance against its value four observations back
    is exactly 0.0 when both are zero, and NaN (neither an infinity nor a
    finite number) when the earlier value is zero and the current one is
    not. *)
Theorem calc_safe_growth_zero_prior (bal : list float) (i : nat) (curr prev : float) :
  bal !! i = Some prev →
  bal !! (i + 4)%nat = Some curr →
  feqb prev (F 0) = true →
  calc_safe_growth curr prev = (if feqb curr (F 0) then F 0 else NaN)
  ∧ growth_ttm bal !! (i + 4)%nat = Some (if feqb curr (F 0) then F 0 else NaN)
  ∧ (feqb curr (F 0) = false → isna (calc_safe_growth curr prev) = true).
Proof.
  intros Hprev Hcurr Hz.
  assert (Hg : calc_safe_growth curr prev = if feqb curr (F 0) then F 0 else NaN).
  { apply feqb_zero in Hz as ->. unfold calc_safe_growth.
    destruct curr as [q|s|]; reflexivity. }
  split; [exact Hg|]. split.
  - unfold growth_ttm. rewrite lookup_zip_with, Hcurr. simpl.
    rewrite shift_lookup_ge.
    rewrite bool_decide_eq_true_2 by (by apply lookup_lt_Some in Hcurr).
    rewrite Hprev. simpl. by rewrite Hg.
  - intros Hc. by rewrite Hg, Hc.
Qed.

Lemma calc_safe_growth_zero_prior_witness :
  calc_safe_growth (F 0) (F 0) = F 0
  ∧ calc_safe_growth (F 250) (F 0) = NaN
  ∧ growth_ttm [F 0; F 1; F 2; F 3; F 250] !! 4%nat = Some NaN.
Proof.
  destruct (calc_safe_growth_zero_prior [F 0; F 1; F 2; F 3; F 250] 0 (F 250) (F 0))
    as (H1 & H2 & _); [reflexivity | reflexivity | reflexivity |].
  destruct (calc_safe_growth_zero_prior [F 0; F 1; F 2; F 3; F 0] 0 (F 0) (F 0))
    as (H3 & _ & _); [reflexivity | reflexivity | reflexivity |].
  split; [exact H3|]. split; [exact H1 | exact H2].
Defined.

(** ** Rolling windows *)






Lemma Qc_of_Z_nonzero n : n ≠ 0 → Qc_of_Z n ≠ 0%Qc.
Proof. intros Hn Heq. apply (f_equal this) in Heq. simpl in Heq.
  injection Heq as Heq. lia. Qed.



(** ** Column updates *)

Lemma cell_with_cell_eq c v r : cell (with_cell c v r) c = v.
Proof. unfold cell, with_cell. simpl. by rewrite lookup_insert_eq. Qed.

Lemma cell_with_cell_ne c c' v r : c ≠ c' → cell (with_cell c v r) c' = cell r c'.
Proof. intros. unfold cell, with_cell. simpl. by rewrite lookup_insert_ne. Qed.



Lemma column_length df c : length (column df c) = length df.
Proof. unfold column. by rewrite length_fmap. Qed.









(** ** Field resolution *)





(** The first candidate whose value is present and non-zero wins. *)
Lemma first_present_nonzero_hit row pre c post :
  Forall (λ c', notna (candidate_value row c') && fneb (candidate_value row c') (F 0) = false) pre →
  notna (candidate_value row c) && fneb (candidate_value row c) (F 0) = true →
  first_present_nonzero row (pre ++ c :: post) = candidate_value row c.
Proof.
  intros Hpre Hc. induction Hpre as [|c' pre Hc' _ IH]; simpl.
  - by rewrite Hc.
  - by rewrite Hc', IH.
Qed.

(** With every candidate absent or zero the metric resolves to zero. *)
Lemma first_present_nonzero_none row cands :
  Forall (λ c', notna (candidate_value row c') && fneb (candidate_value row c') (F 0) = false) cands →
  first_present_nonzero row cands = F 0.
Proof.
  induction 1 as [|c' pre Hc' _ IH]; simpl; [done|]. by rewrite Hc'.
Qed.


(** *** The layer on a whole table *)













(** ** Trailing-twelve-month rates *)









(** ** YTD to quarterly *)

Lemma loc_assign_not_in acc c idx vals i :
  i ∉ idx → loc_assign acc c idx vals !! i = acc !! i.
Proof.
  unfold loc_assign. revert acc vals.
  induction idx as [|i0 idx IH]; intros acc [|v vals] Hni; simpl; try done.
  apply not_elem_of_cons in Hni as [Hne Hni].
  rewrite IH by done. by apply list_lookup_alter_ne.
Qed.

Lemma loc_assign_in acc c idx vals k i v :
  NoDup idx → idx !! k = Some i → vals !! k = Some v →
  loc_assign acc c idx vals !! i = with_cell c v <$> acc !! i.
Proof.
  unfold loc_assign. revert acc vals k.
  induction idx as [|i0 idx IH]; intros acc [|v0 vals] k Hnd Hi Hv; simpl; try done.
  apply list.NoDup_cons in Hnd as [Hni Hnd]. destruct k as [|k]; simpl in *.
  - simplify_eq. fold (loc_assign (alter (with_cell c v) i acc) c idx vals).
    rewrite loc_assign_not_in by done. apply list_lookup_alter_eq.
  - rewrite (IH _ _ k) by done. rewrite list_lookup_alter_ne; [done|].
    intros ->. apply Hni. by eapply list_elem_of_lookup_2.
Qed.

Lemma diff_lookup_succ l k a b :
  l !! k = Some a → l !! S k = Some b → diff l !! S k = Some (fsub b a).
Proof.
  intros Ha Hb. destruct l as [|x l]; [done|]. simpl in *.
  rewrite lookup_zip_with, Hb. simpl. by rewrite Ha.
Qed.

Lemma diff_lookup_0 l x : l !! 0%nat = Some x → diff l !! 0%nat = Some NaN.
Proof. by destruct l. Qed.

Lemma quarterly_vals_lookup g col k ir :
  g !! k = Some ir →
  quarterly_vals g col !! k = Some (quarterly_at g col k ir.2).
Proof.
  intros Hk. unfold quarterly_vals, quarterly_at.
  rewrite lookup_zip_with, Hk. simpl.
  set (vals := (λ ir0 : nat * Row, cell ir0.2 col) <$> g).
  assert (Hv : vals !! k = Some (cell ir.2 col))
    by (unfold vals; by rewrite list_lookup_fmap, Hk).
  destruct k as [|k].
  - rewrite (diff_lookup_0 _ _ Hv). done.
  - destruct (lookup_lt_is_Some_2 g k) as [p Hp];
      [apply lookup_lt_Some in Hk; lia|].
    rewrite (diff_lookup_succ vals k (cell p.2 col) (cell ir.2 col));
      [|unfold vals; by rewrite list_lookup_fmap, Hp|done].
    rewrite Hp. done.
Qed.

Lemma string_app_length (a b : string) :
  String.length (a +:+ b) = (String.length a + String.length b)%nat.
Proof. induction a as [|x a IH]; simpl; [done|]. by rewrite IH. Qed.

Lemma suffix_Q_inj (a b : string) : a +:+ "_Q" = b +:+ "_Q" → a = b.
Proof.
  revert b. induction a as [|x a IH]; intros [|y b] H; simpl in *; try done.
  - apply (f_equal String.length) in H. simpl in H.
    rewrite string_app_length in H. simpl in H. lia.
  - apply (f_equal String.length) in H. simpl in H.
    rewrite string_app_length in H. simpl in H. lia.
  - injection H as -> H. f_equal. by apply IH.
Qed.

Lemma write_loop_not_in g cols acc i :
  i ∉ g.*1 → foldl (write_quarterly g) acc cols !! i = acc !! i.
Proof.
  intros Hni. revert acc. induction cols as [|col cols IH]; intros acc; simpl; [done|].
  rewrite IH. unfold write_quarterly. by apply loc_assign_not_in.
Qed.

Lemma write_loop_is_Some g cols acc i :
  NoDup g.*1 → is_Some (acc !! i) → is_Some (foldl (write_quarterly g) acc cols !! i).
Proof.
  intros Hnd. revert acc. induction cols as [|col cols IH]; intros acc Hs; simpl; [done|].
  apply IH. unfold write_quarterly.
  destruct (decide (i ∈ g.*1)) as [Hin|Hni].
  - apply list_elem_of_lookup in Hin as [k Hk].
    destruct (lookup_lt_is_Some_2 g k) as [ir Hir];
      [apply lookup_lt_Some in Hk; by rewrite length_fmap in Hk|].
    erewrite loc_assign_in; [|done|exact Hk|by apply quarterly_vals_lookup].
    by apply fmap_is_Some.
  - by rewrite loc_assign_not_in.
Qed.

Lemma write_loop_cell g cols acc k ir col :
  NoDup g.*1 → g !! k = Some ir → is_Some (acc !! ir.1) → col ∈ cols →
  (λ r, cell r (col +:+ "_Q")) <$> foldl (write_quarterly g) acc cols !! ir.1
  = Some (quarterly_at g col k ir.2).
Proof.
  intros Hnd Hk Hs. induction cols as [|x cols IH] using rev_ind; intros Hin;
    [by apply elem_of_nil in Hin|].
  rewrite foldl_snoc. unfold write_quarterly at 1.
  assert (Hidx : g.*1 !! k = Some ir.1) by (by rewrite list_lookup_fmap, Hk).
  erewrite loc_assign_in; [|done|exact Hidx|by apply quarterly_vals_lookup].
  destruct (write_loop_is_Some g cols acc ir.1 Hnd Hs) as [r Hr].
  rewrite Hr. simpl. f_equal.
  destruct (decide (x = col)) as [->|Hne].
  - apply cell_with_cell_eq.
  - rewrite cell_with_cell_ne by (intros H; by apply suffix_Q_inj in H).
    apply elem_of_app in Hin as [Hin|Hin]; [|by apply list_elem_of_singleton in Hin].
    specialize (IH Hin). rewrite Hr in IH. simpl in IH. by simplify_eq.
Qed.

(** Rows of a group: labelled rows of the frame that carry the group's key. *)
Lemma group_of_elem df cert i r :
  (i, r) ∈ group_of df cert ↔ df !! i = Some r ∧ CERT r = cert.
Proof.
  unfold group_of. rewrite list_elem_of_filter. simpl.
  rewrite elem_of_lookup_imap. split.
  - intros [Hc (j & y & [= -> ->] & Hy)]. done.
  - intros [Hr Hc]. split; [done|]. by exists i, r.
Qed.

Lemma imap_pair_fst {A} (l : list A) : (imap pair l).*1 = seq 0 (length l).
Proof.
  rewrite fmap_imap. transitivity (id <$> seq 0 (length l)); [|apply list_fmap_id].
  rewrite <-(imap_seq_0 l id). by apply imap_ext.
Qed.

Lemma group_of_NoDup df cert : NoDup (group_of df cert).*1.
Proof.
  unfold group_of.
  eapply (sublist_NoDup _ ((imap pair df).*1)).
  - rewrite imap_pair_fst. apply NoDup_seq.
  - apply fmap_sublist, sublist_filter.
Qed.

Lemma sorted_group_perm df cert : sorted_group df cert ≡ₚ group_of df cert.
Proof. unfold sorted_group, sort_by_REPDTE. apply merge_sort_Permutation. Qed.

Lemma sorted_group_NoDup df cert : NoDup (sorted_group df cert).*1.
Proof. rewrite sorted_group_perm. apply group_of_NoDup. Qed.

Lemma sorted_group_elem df cert i r :
  (i, r) ∈ sorted_group df cert ↔ df !! i = Some r ∧ CERT r = cert.
Proof. rewrite sorted_group_perm. apply group_of_elem. Qed.

Lemma sorted_group_index df cert i :
  i ∈ (sorted_group df cert).*1 ↔ ∃ r, df !! i = Some r ∧ CERT r = cert.
Proof.
  rewrite list_elem_of_fmap. split.
  - intros ([j r] & -> & Hin). exists r. by apply sorted_group_elem.
  - intros (r & Hr). exists (i, r). split; [done|]. by apply sorted_group_elem.
Qed.

Lemma ytd_group_other df acc cert i r :
  df !! i = Some r → CERT r ≠ cert → ytd_group df acc cert !! i = acc !! i.
Proof.
  intros Hr Hne. unfold ytd_group. apply write_loop_not_in.
  rewrite sorted_group_index. intros (r' & Hr' & Hc). by simplify_eq.
Qed.

Lemma ytd_loop_not_in df ks acc i r :
  df !! i = Some r → CERT r ∉ ks → foldl (ytd_group df) acc ks !! i = acc !! i.
Proof.
  intros Hr. revert acc. induction ks as [|c ks IH]; intros acc Hni; simpl; [done|].
  apply not_elem_of_cons in Hni as [Hne Hni].
  rewrite IH by done. by eapply ytd_group_other.
Qed.

Lemma ytd_loop_cell df ks acc k i r col :
  NoDup ks → CERT r ∈ ks → sorted_group df (CERT r) !! k = Some (i, r) →
  is_Some (acc !! i) → col ∈ ytd_fields df →
  (λ r', cell r' (col +:+ "_Q")) <$> foldl (ytd_group df) acc ks !! i
  = Some (quarterly_at (sorted_group df (CERT r)) col k r).
Proof.
  intros Hnd Hin Hk Hs Hcol.
  assert (Hr : df !! i = Some r).
  { apply list_elem_of_lookup_2 in Hk. by apply sorted_group_elem in Hk as [? _]. }
  revert acc Hs. induction ks as [|c ks IH]; intros acc Hs;
    [by apply elem_of_nil in Hin|].
  apply list.NoDup_cons in Hnd as [Hc Hnd]. simpl.
  destruct (decide (c = CERT r)) as [->|Hne].
  - rewrite (ytd_loop_not_in df ks _ i r) by done.
    unfold ytd_group.
    apply (write_loop_cell _ _ _ k (i, r)); [apply sorted_group_NoDup|done..].
  - apply elem_of_cons in Hin as [Hin|Hin]; [done|].
    apply IH; [done..|]. by rewrite (ytd_group_other df acc c i r).
Qed.

Lemma group_keys_NoDup df : NoDup (group_keys df).
Proof. unfold group_keys. rewrite merge_sort_Permutation. apply NoDup_remove_dups. Qed.

Lemma group_keys_elem df c : c ∈ group_keys df ↔ ∃ r, r ∈ df ∧ CERT r = c.
Proof.
  unfold group_keys. rewrite merge_sort_Permutation, elem_of_remove_dups, list_elem_of_fmap.
  split.
  - intros (r & -> & Hr). by exists r.
  - intros (r & Hr & <-). by exists r.
Qed.

Lemma quarterly_cell_spec df cert col k i r :
  col ∈ ytd_fields df → sorted_group df cert !! k = Some (i, r) →
  quarterly_cell df i col = quarterly_at (sorted_group df cert) col k r.
Proof.
  intros Hcol Hk.
  assert (Hin : (i, r) ∈ sorted_group df cert) by (by eapply list_elem_of_lookup_2).
  apply sorted_group_elem in Hin as [Hr <-].
  unfold quarterly_cell, ytd_to_quarterly.
  erewrite ytd_loop_cell; [done|apply group_keys_NoDup| |exact Hk|by rewrite Hr|done].
  apply group_keys_elem. exists r. split; [|done]. by eapply list_elem_of_lookup_2.
Qed.

Global Instance ts_le_key_total {A} (key : A → Timestamp) :
  Total (λ a b, ts_le (key a) (key b)).
Proof.
  intros a b. destruct (key a) as [y1 m1 d1], (key b) as [y2 m2 d2].
  unfold ts_le, ts_lt. simpl.
  destruct (decide (y1 = y2)) as [->|]; [|lia].
  destruct (decide (m1 = m2)) as [->|]; [|lia].
  destruct (decide (d1 = d2)) as [->|]; [by left; left|lia].
Qed.

Lemma Qc_of_Z_0 : Qc_of_Z 0 = 0%Qc.
Proof. by apply Qc_is_canon. Qed.

Lemma telescope_four (a b c d : Qc) :
  fsum [Fin a; fsub (Fin b) (Fin a); fsub (Fin c) (Fin b); fsub (Fin d) (Fin c)] = Fin d.
Proof.
  unfold fsum, F. simpl. rewrite Qc_of_Z_0. f_equal. ring.
Qed.

(** C6: the YTD fields are converted institution by institution: the group
    holds exactly the rows of one institution, in ascending period order;
    the converted value of a row is its cumulative value in calendar Q1 and
    otherwise the difference from the institution's previous row (null for
    a first row outside Q1).  Hence for four consecutive filings Q1..Q4 of
    an institution with finite values the four converted values add up to
    the Q4 cumulative value. *)
Theorem ytd_to_quarterly_per_institution (df : DataFrame) (cert : Z) (col : string) :
  col ∈ ytd_fields df →
  (∀ i r, (i, r) ∈ sorted_group df cert ↔ df !! i = Some r ∧ CERT r = cert)
  ∧ Sorted (λ a b, ts_le (REPDTE a.2) (REPDTE b.2)) (sorted_group df cert)
  ∧ (∀ k i r, sorted_group df cert !! k = Some (i, r) →
       quarterly_cell df i col = quarterly_at (sorted_group df cert) col k r)
  ∧ (∀ k i1 r1 i2 r2 i3 r3 i4 r4,
       sorted_group df cert !! k = Some (i1, r1) →
       sorted_group df cert !! S k = Some (i2, r2) →
       sorted_group df cert !! S (S k) = Some (i3, r3) →
       sorted_group df cert !! S (S (S k)) = Some (i4, r4) →
       quarter (REPDTE r1) = 1 → quarter (REPDTE r2) = 2 →
       quarter (REPDTE r3) = 3 → quarter (REPDTE r4) = 4 →
       forallb is_finite [cell r1 col; cell r2 col; cell r3 col; cell r4 col] = true →
       fsum [quarterly_cell df i1 col; quarterly_cell df i2 col;
             quarterly_cell df i3 col; quarterly_cell df i4 col] = cell r4 col).
Proof.
  intros Hcol. split; [intros; apply sorted_group_elem|].
  split; [apply (Sorted_merge_sort _)|].
  split; [intros; by apply quarterly_cell_spec|].
  intros k i1 r1 i2 r2 i3 r3 i4 r4 H1 H2 H3 H4 Q1 Q2 Q3 Q4 Hfin.
  rewrite (quarterly_cell_spec df cert col _ _ _ Hcol H1),
          (quarterly_cell_spec df cert col _ _ _ Hcol H2),
          (quarterly_cell_spec df cert col _ _ _ Hcol H3),
          (quarterly_cell_spec df cert col _ _ _ Hcol H4).
  unfold quarterly_at. rewrite H1, H2, H3, Q1, Q2, Q3, Q4. simpl.
  destruct (cell r1 col), (cell r2 col), (cell r3 col), (cell r4 col); try done.
  apply telescope_four.
Qed.

Lemma ytd_to_quarterly_per_institution_witness :
  fsum [quarterly_cell ytd_sample 2 "NTLNLS"; quarterly_cell ytd_sample 5 "NTLNLS";
        quarterly_cell ytd_sample 0 "NTLNLS"; quarterly_cell ytd_sample 3 "NTLNLS"] = F 70.
Proof.
  assert (Hcol : "NTLNLS" ∈ ytd_fields ytd_sample) by by_compute.
  destruct (ytd_to_quarterly_per_institution ytd_sample 7 "NTLNLS" Hcol) as (_ & _ & _ & H).
  apply (H 0%nat 2%nat (ytd_row 7 1 10) 5%nat (ytd_row 7 2 25)
           0%nat (ytd_row 7 3 45) 3%nat (ytd_row 7 4 70));
    vm_compute; reflexivity.
Defined.

(** ** Need assessment *)

Lemma half_lt_ratio (m t : nat) :
  (0 < t)%nat →
  fgtb (fdiv (F (Z.of_nat m)) (F (Z.of_nat t))) (Fin (Q2Qc (1 # 2)))
  = bool_decide (t < 2 * m)%nat.
Proof.
  intros Ht. unfold F, fdiv.
  rewrite bool_decide_eq_false_2 by (apply Qc_of_Z_nonzero; lia).
  unfold fgtb. apply bool_decide_ext.
  unfold Qclt, Qcdiv, Qcmult, Qcinv, Q2Qc. cbn [this].
  setoid_rewrite Qred_correct.
  destruct (Z.of_nat t) as [|p|p] eqn:Hp; try lia.
  unfold Qlt, Qmult, Qinv, inject_Z. simpl. lia.
Qed.

Lemma filter_split_length {A} (P : A → bool) (l : list A) :
  (length (filter (λ v, P v) l) + length (filter (λ v, negb (P v)) l) = length l)%nat.
Proof.
  induction l as [|x l IH]; [done|].
  rewrite !filter_cons. destruct (P x) eqn:Hx; simpl; lia.
Qed.

Lemma canary_counts df d :
  (canary_missing df d + canary_present df d = canary_total df d)%nat.
Proof.
  unfold canary_missing, canary_present, canary_total.
  induction (check_cols df) as [|c cs IH]; csimpl; [done|].
  pose proof (filter_split_length missing_or_zero
                (column (filter (λ r, REPDTE r = d) df) c)). lia.
Qed.

(** C9 (as the code has it): for a period that has rows, healing is skipped
    exactly when the table has a canary column and the canary cells that
    are present and non-zero are at least half of the queried cells (the
    missing-or-zero share is not above 0.5); the bulk download is attempted
    exactly when the assessment asks for it. *)
Theorem quarter_needs_patching_threshold (df : DataFrame) (d : Timestamp) :
  filter (λ r, REPDTE r = d) df ≠ [] →
  (quarter_needs_patching df d = false
   ↔ check_cols df ≠ [] ∧ (canary_total df d ≤ 2 * canary_present df d)%nat)
  ∧ (∀ env certs rest w,
       quarter_needs_patching df d = false →
       heal_loop env df certs (d :: rest) w
       = heal_loop env df certs rest (record d [Assess false] w))
  ∧ (∀ env certs rest w,
       quarter_needs_patching df d = true →
       heal_loop env df certs (d :: rest) w
       = let '(df_ffiec_q, w1) :=
           fetch_quarter_data env d certs (record d [Assess true] w) in
         if bool_decide (df_ffiec_q = [])
         then heal_loop env df certs rest
                (record d [LogWarning "[Failed] No FFIEC data"] w1)
         else let '(frames, w2) := heal_loop env df certs rest w1 in
              (df_ffiec_q :: frames, w2)).
Proof.
  intros Hq. split; [|split].
  - unfold quarter_needs_patching.
    assert (Hdf : df ≠ []) by (intros ->; done).
    rewrite !(bool_decide_eq_false_2 (_ = [])) by done.
    case_bool_decide as Hc; [split; [done|by intros [? _]]|].
    pose proof (canary_counts df d) as Hsum.
    case_bool_decide as Ht.
    + rewrite half_lt_ratio by done.
      rewrite bool_decide_eq_false. split; [split; [done|lia]|intros [_ ?]; lia].
    + split; [done|]. intros _. exfalso. apply Ht.
      unfold canary_total.
      destruct (check_cols df) as [|c cs]; [done|]. csimpl.
      rewrite column_length.
      destruct (filter (λ r, REPDTE r = d) df); [done|]. simpl. lia.
  - intros env certs rest w Hn. simpl. by rewrite Hn.
  - intros env certs rest w Hn. simpl. by rewrite Hn.
Qed.

Lemma quarter_needs_patching_threshold_witness :
  quarter_needs_patching [half_row] (REPDTE half_row) = false.
Proof.
  destruct (quarter_needs_patching_threshold [half_row] (REPDTE half_row))
    as (H & _ & _); [by_compute |].
  apply H. split; [by_compute | vm_compute; lia].
Defined.

(** The claim as stated fails on the boundary: with exactly half of the
    queried canary cells present and non-zero (not over half), healing is
    skipped. *)
Lemma canary_exactly_half_is_skipped :
  canary_present [half_row] (REPDTE half_row) = 1%nat
  ∧ canary_total [half_row] (REPDTE half_row) = 2%nat
  ∧ ¬ (canary_total [half_row] (REPDTE half_row)
       < 2 * canary_present [half_row] (REPDTE half_row))%nat
  ∧ quarter_needs_patching [half_row] (REPDTE half_row) = false.
Proof.
  split; [by_compute|]. split; [by_compute|]. split; [vm_compute; lia|by_compute].
Qed.

(** ** Healing merge *)

Lemma heal_cell_rule e rec :
  heal_cell e rec =
    if isna e then rec
    else if feqb e (F 0) && notna rec && fneb rec (F 0) then rec else e.
Proof.
  unfold heal_cell, fillna. destruct (isna e) eqn:He; [|done].
  unfold fneb. destruct (feqb rec (F 0)); simpl; [|done].
  by rewrite andb_false_r.
Qed.

Lemma heal_cell_nan_r e : heal_cell e NaN = e.
Proof. rewrite heal_cell_rule. destruct e; simpl; try done. by rewrite andb_false_r. Qed.

Lemma heal_cell_changes e rec :
  heal_cell e rec ≠ e →
  heal_cell e rec = rec
  ∧ (isna e = true ∨ (e = F 0 ∧ notna rec = true ∧ rec ≠ F 0)).
Proof.
  rewrite heal_cell_rule. destruct (isna e) eqn:He; [by auto|].
  destruct (feqb e (F 0) && notna rec && fneb rec (F 0)) eqn:Hc; [|done].
  intros _. split; [done|]. right.
  apply andb_true_iff in Hc as [[He0 Hn]%andb_true_iff Hne].
  split; [by apply feqb_zero|]. split; [done|].
  intros ->. unfold fneb in Hne. by rewrite (proj2 (feqb_zero (F 0)) eq_refl) in Hne.
Qed.

Lemma has_column_false_cell df c r :
  has_column df c = false → r ∈ df → cell r c = NaN.
Proof.
  unfold has_column, columns, cell. intros Hc Hr.
  apply bool_decide_eq_false in Hc.
  destruct (cells r !! c) as [v|] eqn:Hv; [|done].
  exfalso. apply Hc. apply elem_of_union_list.
  exists (dom (cells r)). split.
  - apply list_elem_of_fmap. by exists r.
  - apply elem_of_dom. by exists v.
Qed.

Section Merge.
Context (df_p : DataFrame).

Lemma merge_column_lookup df col i r :
  df !! i = Some r →
  merge_column df_p df col !! i
  = Some (if has_column df_p col
          then with_cell col
                 (heal_cell (cell r col) (patch_lookup df_p (CERT r) (REPDTE r) col)) r
          else r).
Proof.
  intros Hr. unfold merge_column.
  destruct (has_column df_p col); [|done].
  destruct (has_column df col) eqn:Hm; simpl.
  - by rewrite list_lookup_fmap, Hr.
  - rewrite list_lookup_fmap, Hr. simpl.
    rewrite (has_column_false_cell df col r Hm) by (by eapply list_elem_of_lookup_2).
    by rewrite heal_cell_rule.
Qed.

Lemma merge_loop_lookup cols df i r :
  df !! i = Some r →
  foldl (merge_column df_p) df cols !! i = Some (healed_row df_p cols r).
Proof.
  revert df r. induction cols as [|col cols IH]; intros df r Hr; simpl; [done|].
  erewrite IH; [done|]. by apply merge_column_lookup.
Qed.

Lemma healed_row_key cols r :
  CERT (healed_row df_p cols r) = CERT r ∧ REPDTE (healed_row df_p cols r) = REPDTE r.
Proof.
  revert r. induction cols as [|col cols IH]; intros r; simpl; [done|].
  destruct (IH (if has_column df_p col
                then with_cell col (heal_cell (cell r col)
                                      (patch_lookup df_p (CERT r) (REPDTE r) col)) r
                else r)) as [-> ->].
  by destruct (has_column df_p col).
Qed.

Lemma healed_row_cons col cols r :
  healed_row df_p (col :: cols) r
  = healed_row df_p cols
      (if has_column df_p col
       then with_cell col
              (heal_cell (cell r col) (patch_lookup df_p (CERT r) (REPDTE r) col)) r
       else r).
Proof. reflexivity. Qed.

Lemma healed_row_cell cols r c :
  NoDup cols →
  cell (healed_row df_p cols r) c
  = if bool_decide (c ∈ cols) && has_column df_p c
    then heal_cell (cell r c) (patch_lookup df_p (CERT r) (REPDTE r) c)
    else cell r c.
Proof.
  intros Hnd. revert r. induction Hnd as [|col cols Hni Hnd IH]; intros r; [done|].
  rewrite healed_row_cons, IH.
  destruct (decide (c = col)) as [->|Hne].
  - rewrite (bool_decide_eq_false_2 (col ∈ cols)) by done.
    rewrite (bool_decide_eq_true_2 (col ∈ col :: cols)) by apply list_elem_of_here.
    simpl. destruct (has_column df_p col); [|done]. apply cell_with_cell_eq.
  - rewrite (bool_decide_ext (c ∈ col :: cols) (c ∈ cols))
      by (rewrite elem_of_cons; split; [by intros [?|?]|by right]).
    destruct (has_column df_p col); [|done].
    rewrite cell_with_cell_ne by done. done.
Qed.

End Merge.

Lemma target_fields_NoDup : NoDup target_fields.
Proof. by_compute. Qed.

Lemma merge_patch_row df df_p i r :
  df !! i = Some r →
  ∃ r', merge_patch df df_p !! i = Some r'
        ∧ CERT r' = CERT r ∧ REPDTE r' = REPDTE r
        ∧ ∀ c, cell r' c
               = if bool_decide (c ∈ target_fields) && has_column df_p c
                 then heal_cell (cell r c) (patch_lookup df_p (CERT r) (REPDTE r) c)
                 else cell r c.
Proof.
  intros Hr. exists (healed_row df_p target_fields r).
  split; [by apply merge_loop_lookup|].
  destruct (healed_row_key df_p target_fields r) as [-> ->].
  split; [done|]. split; [done|].
  intros c. apply healed_row_cell, target_fields_NoDup.
Qed.

(** The healed frame is the input frame or its merge with the patch. *)
Lemma healed_cases env df certs w :
  healed env df certs w = df
  ∨ healed env df certs w = merge_patch df (mjoin (recovered_frames env df certs w)).
Proof.
  unfold healed, heal_dataset, recovered_frames.
  case_bool_decide; [by left|].
  destruct (heal_loop env df certs (heal_dates df) w) as [frames w'].
  case_bool_decide; [by left|by right].
Qed.

(** C2: in the healed frame every row keeps its place and key, and a cell
    differs from the raw one only if the raw value was missing, or was
    exactly zero while the recovered value is present and non-zero; the new
    value is then the recovered one.  Whenever the patch has the column,
    the cell is [heal_cell] of the raw and the recovered value, so that
    0 with 500 recovered gives 500, and 500 stays 500 against 0 or nothing. *)
Theorem heal_dataset_overwrite_rule (env : Env) (df : DataFrame) (certs : gset Z)
    (w : World) (i : nat) (r : Row) :
  df !! i = Some r →
  (∃ r', healed env df certs w !! i = Some r'
         ∧ CERT r' = CERT r ∧ REPDTE r' = REPDTE r
         ∧ ∀ col,
             cell r' col ≠ cell r col →
             col ∈ target_fields
             ∧ cell r' col
               = patch_lookup (mjoin (recovered_frames env df certs w))
                   (CERT r) (REPDTE r) col
             ∧ (isna (cell r col) = true
                ∨ (cell r col = F 0
                   ∧ notna (cell r' col) = true ∧ cell r' col ≠ F 0)))
  ∧ (∀ col r', merge_patch df (mjoin (recovered_frames env df certs w)) !! i = Some r' →
       col ∈ target_fields →
       has_column (mjoin (recovered_frames env df certs w)) col = true →
       cell r' col
       = heal_cell (cell r col)
           (patch_lookup (mjoin (recovered_frames env df certs w)) (CERT r) (REPDTE r) col))
  ∧ heal_cell (F 0) (F 500) = F 500
  ∧ heal_cell (F 500) (F 0) = F 500
  ∧ heal_cell (F 500) NaN = F 500.
Proof.
  intros Hr. split; [|split; [|repeat split; by_compute]].
  - destruct (healed_cases env df certs w) as [-> | ->].
    + exists r. by split; [|split; [|split]].
    + destruct (merge_patch_row df (mjoin (recovered_frames env df certs w)) i r Hr)
        as (r' & Hr' & Hc & Hd & Hcell).
      exists r'. split; [done|]. split; [done|]. split; [done|].
      intros col. rewrite (Hcell col).
      case_bool_decide as Hin; simpl; [|done].
      destruct (has_column _ col); [|done].
      intros Hne. apply heal_cell_changes in Hne as [Heq Hor].
      rewrite Heq. split; [done|]. split; [done|]. done.
  - intros col r' Hr' Hin Hcol.
    destruct (merge_patch_row df (mjoin (recovered_frames env df certs w)) i r Hr)
      as (r'' & Hr'' & _ & _ & Hcell).
    rewrite Hr' in Hr''. injection Hr'' as <-.
    rewrite Hcell, Hcol. by rewrite bool_decide_eq_true_2.
Qed.

Lemma heal_dataset_overwrite_rule_witness :
  ∃ r', healed env_ok [zero_row] {[34221]} world0 !! 0%nat = Some r'
        ∧ cell zero_row "RCFD1545" = F 0
        ∧ cell r' "RCFD1545" = F 500
        ∧ cell r' "LNLS" = F 100.
Proof.
  destruct (heal_dataset_overwrite_rule env_ok [zero_row] {[34221]} world0 0 zero_row eq_refl)
    as ((r' & Hr' & _) & _).
  exists r'. split; [exact Hr'|].
  vm_compute in Hr'. injection Hr' as <-.
  split; [by_compute|]. split; by_compute.
Defined.

(** ** Download protocol and retries *)

(** Every attempt opens a session of its own, starts with the GET of the
    form page, and neither reuses a session nor opens the archive. *)
Section Retry.
Context (env : Env) (ds : string).




End Retry.



(** ** Periods outside the healing window *)

Lemma fetch_quarter_data_inv env d certs w dfq w' :
  fetch_quarter_data env d certs w = (dfq, w') → cache_wf w →
  cache_wf w'
  ∧ (∃ acts, trace w' = trace w ++ ((λ a, (d, a)) <$> acts))
  ∧ Forall (λ r, REPDTE r = d) dfq.
Proof.
  intros Hf Hwf. unfold fetch_quarter_data in Hf.
  assert (Hdl : download_quarter env d certs w = (dfq, w') →
                cache_wf w'
                ∧ (∃ acts, trace w' = trace w ++ ((λ a, (d, a)) <$> acts))
                ∧ Forall (λ r, REPDTE r = d) dfq).
  { clear Hf. unfold download_quarter.
    destruct (download_attempts env (date_fmt d) 3 (next_session w))
      as [[[resp|] acts] sid'].
    - destruct (read_archive env (body resp)) as [rows|].
      + case_bool_decide as Hm.
        * intros [= <- <-]. split; [exact Hwf|]. split; [|done].
          exists (acts ++ [OpenArchive]). simpl. by rewrite fmap_app, app_assoc.
        * intros [= <- <-]. split; [|split].
          -- intros d' df'. simpl. intros Hc.
             destruct (decide (d = d')) as [->|Hne].
             ++ rewrite fn_lookup_insert in Hc. injection Hc as <-.
                unfold frame_of_map. apply Forall_fmap. by apply Forall_true.
             ++ rewrite fn_lookup_insert_ne in Hc by done. by apply Hwf.
          -- exists (acts ++ [OpenArchive; WriteCache]). simpl.
             rewrite fmap_app. simpl. by rewrite <-!app_assoc.
          -- unfold frame_of_map. apply Forall_fmap. by apply Forall_true.
      + intros [= <- <-]. split; [exact Hwf|]. split; [|done].
        exists (acts ++ [OpenArchive; LogError "Zip processing failed"]). simpl.
        rewrite fmap_app. simpl. by rewrite <-!app_assoc.
    - intros [= <- <-]. split; [exact Hwf|]. split; [|done]. by exists acts. }
  destruct (cache w d) as [[| |dfc]|] eqn:Hc; try (by apply Hdl).
  injection Hf as <- <-. split; [exact Hwf|]. split; [by exists [CacheHit]|].
  specialize (Hwf d dfc Hc). rewrite list.Forall_forall in Hwf.
  apply list.Forall_forall. intros r [_ Hr]%list_elem_of_filter. by apply Hwf.
Qed.

Lemma record_cache_wf d acts w : cache_wf w → cache_wf (record d acts w).
Proof. done. Qed.

Lemma heal_loop_inv env df certs dates w frames w' :
  heal_loop env df certs dates w = (frames, w') → cache_wf w →
  cache_wf w'
  ∧ (∃ new, trace w' = trace w ++ new ∧ Forall (λ e, e.1 ∈ dates) new)
  ∧ Forall (λ f, Forall (λ r, REPDTE r ∈ dates) f) frames.
Proof.
  revert w frames w'. induction dates as [|dt rest IH]; intros w frames w' Hl Hwf.
  - injection Hl as <- <-. split; [done|]. split; [|done].
    exists []. by rewrite app_nil_r.
  - cbn [heal_loop] in Hl.
    assert (Hweak : ∀ new : list (Timestamp * action),
               Forall (λ e, e.1 ∈ rest) new → Forall (λ e, e.1 ∈ dt :: rest) new).
    { intros new. apply List.Forall_impl. intros e He. by apply list_elem_of_further. }
    assert (Hweakf : ∀ fs : list DataFrame,
               Forall (λ f, Forall (λ r, REPDTE r ∈ rest) f) fs →
               Forall (λ f, Forall (λ r, REPDTE r ∈ dt :: rest) f) fs).
    { intros fs. apply List.Forall_impl. intros f. apply List.Forall_impl.
      intros r Hr. by apply list_elem_of_further. }
    assert (Htag : ∀ acts : list action,
               Forall (λ e : Timestamp * action, e.1 ∈ dt :: rest) ((λ a, (dt, a)) <$> acts)).
    { intros acts. apply Forall_fmap, Forall_true. intros a. apply list_elem_of_here. }
    destruct (quarter_needs_patching df dt); cbn [negb] in Hl.
    + destruct (fetch_quarter_data env dt certs (record dt [Assess true] w))
        as [dfq w1] eqn:Hf.
      apply fetch_quarter_data_inv in Hf as (Hwf1 & [acts Ht1] & Hrows);
        [|by apply record_cache_wf].
      case_bool_decide as He.
      * apply IH in Hl as (Hwf' & (new & Ht & Hnew) & Hfr); [|by apply record_cache_wf].
        split; [done|]. split; [|by apply Hweakf].
        exists ((dt, Assess true) :: ((λ a, (dt, a)) <$> acts)
                  ++ (dt, LogWarning "[Failed] No FFIEC data") :: new).
        split.
        -- rewrite Ht. cbn [record trace]. rewrite Ht1. cbn [record trace].
           simpl. by rewrite <-!app_assoc.
        -- constructor; [apply list_elem_of_here|].
           apply Forall_app. split; [apply Htag|].
           constructor; [apply list_elem_of_here|by apply Hweak].
      * destruct (heal_loop env df certs rest w1) as [frames0 w2] eqn:Hl0.
        injection Hl as <- <-.
        apply IH in Hl0 as (Hwf' & (new & Ht & Hnew) & Hfr); [|done].
        split; [done|]. split.
        -- exists ((dt, Assess true) :: ((λ a, (dt, a)) <$> acts) ++ new). split.
           ++ rewrite Ht, Ht1. cbn [record trace].
              simpl. by rewrite <-!app_assoc.
           ++ constructor; [apply list_elem_of_here|].
              apply Forall_app. split; [apply Htag|by apply Hweak].
        -- constructor; [|by apply Hweakf].
           eapply List.Forall_impl; [|exact Hrows]. intros r ->. apply list_elem_of_here.
    + apply IH in Hl as (Hwf' & (new & Ht & Hnew) & Hfr); [|by apply record_cache_wf].
      split; [done|]. split; [|by apply Hweakf].
      exists ((dt, Assess false) :: new). split.
      * rewrite Ht. cbn [record trace]. simpl. by rewrite <-app_assoc.
      * constructor; [apply list_elem_of_here|by apply Hweak].
Qed.

Lemma patch_lookup_absent df_p cert d col :
  Forall (λ r, REPDTE r ≠ d) df_p → patch_lookup df_p cert d col = NaN.
Proof.
  intros Hp. unfold patch_lookup.
  destruct (list_find _ df_p) as [[j r]|] eqn:Hfind; [|done].
  apply list_find_Some in Hfind as (Hj & [_ Hd] & _).
  rewrite list.Forall_forall in Hp. destruct (Hp r); [|done].
  by eapply list_elem_of_lookup_2.
Qed.

Global Instance ts_ge_total : Total ts_ge.
Proof.
  intros [y1 m1 d1] [y2 m2 d2]. unfold ts_ge, ts_le, ts_lt. simpl.
  destruct (decide (y1 = y2)) as [->|]; [|lia].
  destruct (decide (m1 = m2)) as [->|]; [|lia].
  destruct (decide (d1 = d2)) as [->|]; [by left; left|lia].
Qed.

Global Instance ts_ge_trans : Transitive ts_ge.
Proof.
  intros [y1 m1 d1] [y2 m2 d2] [y3 m3 d3]. unfold ts_ge, ts_le, ts_lt. simpl.
  intros [H1|H1] [H2|H2]; simplify_eq; [by left|by right|by right|right; lia].
Qed.

Lemma ts_ge_not_lt a b : ts_ge a b → ¬ ts_lt a b.
Proof.
  destruct a as [y1 m1 d1], b as [y2 m2 d2]. unfold ts_ge, ts_le, ts_lt. simpl.
  intros [H|H]; [simplify_eq|]; lia.
Qed.

(** A period with eight distinct newer periods is outside the window. *)
Lemma heal_dates_old df d : (8 ≤ newer_periods df d)%nat → d ∉ heal_dates df.
Proof.
  unfold newer_periods, heal_dates. intros Hn Hin.
  set (l := merge_sort ts_ge (remove_dups (REPDTE <$> df))) in *.
  assert (Hs : StronglySorted ts_ge l) by apply (StronglySorted_merge_sort _).
  assert (Hp : l ≡ₚ remove_dups (REPDTE <$> df)) by apply merge_sort_Permutation.
  rewrite <-Hp in Hn.
  apply elem_of_take in Hin as (j & Hj & Hlt).
  rewrite <-(take_drop_middle l j d Hj) in Hn, Hs.
  apply StronglySorted_app in Hs as (_ & _ & Hs).
  apply StronglySorted_cons in Hs as [Hd _].
  rewrite list.filter_app, filter_cons in Hn.
  rewrite decide_False in Hn
    by (destruct d as [y m dd]; unfold ts_lt; simpl; lia).
  assert (Hnil : filter (λ x, ts_lt d x) (drop (S j) l) = []).
  { clear -Hd. induction Hd as [|x xs Hx _ IH]; [done|].
    rewrite filter_cons, decide_False by (by apply ts_ge_not_lt). done. }
  rewrite Hnil, app_nil_r in Hn.
  pose proof (length_filter (λ x, ts_lt d x) (take j l)) as Hle.
  rewrite length_take in Hle. lia.
Qed.

(** C10: a period with at least eight distinct newer periods in the table
    is outside the healing window: no need assessment, cache access or
    download is ever made for it, and every cell of its rows is the same
    after healing as before. *)
Theorem old_periods_untouched (env : Env) (df : DataFrame) (certs : gset Z)
    (w : World) (d : Timestamp) :
  cache_wf w →
  (8 ≤ newer_periods df d)%nat →
  (d ∉ heal_dates df)
  ∧ (∃ new, trace (heal_dataset env df certs w).2 = trace w ++ new
            ∧ Forall (λ e, e.1 ≠ d) new)
  ∧ (∀ i r, df !! i = Some r → REPDTE r = d →
       ∃ r', healed env df certs w !! i = Some r'
             ∧ CERT r' = CERT r ∧ REPDTE r' = d
             ∧ ∀ c, cell r' c = cell r c).
Proof.
  intros Hwf Hold. pose proof (heal_dates_old df d Hold) as Hd.
  split; [exact Hd|].
  unfold healed, heal_dataset. case_bool_decide as Hdf.
  { split; [exists []; by rewrite app_nil_r|]. intros i r Hr. by subst df. }
  destruct (heal_loop env df certs (heal_dates df) w) as [frames w'] eqn:Hl.
  apply heal_loop_inv in Hl as (_ & (new & Ht & Hnew) & Hfr); [|done].
  assert (Hnew' : Forall (λ e : Timestamp * action, e.1 ≠ d) new).
  { eapply List.Forall_impl; [|exact Hnew]. intros e He Heq. apply Hd. by rewrite <-Heq. }
  case_bool_decide as Hfs.
  { split; [by exists new|]. cbn [fst]. intros i r Hr Hrd. by exists r. }
  split; [by exists new|]. cbn [fst].
  intros i r Hr Hrd.
  destruct (merge_patch_row df (mjoin frames) i r Hr) as (r' & Hr' & Hc & Hk & Hcell).
  exists r'. split; [done|]. split; [done|]. split; [by rewrite Hk|].
  intros c. rewrite Hcell.
  destruct (bool_decide (c ∈ target_fields) && has_column (mjoin frames) c); [|done].
  rewrite patch_lookup_absent; [apply heal_cell_nan_r|].
  apply Forall_join. eapply List.Forall_impl; [|exact Hfr].
  intros f. apply List.Forall_impl. intros r0 Hin Heq. apply Hd.
  by rewrite <-Hrd, <-Heq.
Qed.

Lemma old_periods_untouched_witness :
  (∃ new, trace (heal_dataset env_ok ten_quarters {[34221]} world0).2 = trace world0 ++ new
          ∧ Forall (λ e, e.1 ≠ REPDTE (filing 2022 2)) new)
  ∧ ∃ r', healed env_ok ten_quarters {[34221]} world0 !! 1%nat = Some r'
          ∧ ∀ c, cell r' c = cell (filing 2022 2) c.
Proof.
  destruct (old_periods_untouched env_ok ten_quarters {[34221]} world0
              (REPDTE (filing 2022 2)))
    as (_ & (new & Ht & Hnew) & Hrows).
  - intros d df Hc. discriminate Hc.
  - vm_compute. lia.
  - split; [exists new; split; [exact Ht|exact Hnew]|].
    destruct (Hrows 1%nat (filing 2022 2) eq_refl eq_refl) as (r' & Hr' & _ & _ & Hcell).
    exists r'. split; [exact Hr'|exact Hcell].
Defined.

(** ** Rejoining the LNCI series *)

Lemma filter_none {A} (P : A → Prop) `{!∀ x, Decision (P x)} (l : list A) :
  (∀ x, x ∈ l → ¬ P x) → filter P l = [].
Proof.
  induction l as [|x l IH]; intros Hl; [done|].
  rewrite filter_cons, decide_False by (apply Hl, list_elem_of_here).
  apply IH. intros y Hy. apply Hl. by apply list_elem_of_further.
Qed.

Lemma merge_left_no_match same df lnci :
  Forall (λ r, filter (λ l, same r l = true) lnci = []) df →
  merge_left same df lnci = (λ r, with_cell "LNCI" NaN r) <$> df.
Proof.
  unfold merge_left. induction 1 as [|r df Hr _ IH]; [done|].
  rewrite bind_cons, fmap_cons, IH, Hr. done.
Qed.

Lemma zero_overlap_no_match df lnci r :
  overlap df lnci = ∅ → r ∈ df →
  filter (λ l, same_key_str r l = true) lnci = []
  ∧ filter (λ l, same_key r l = true) lnci = [].
Proof.
  intros Hov Hr.
  assert (Hno : ∀ l, l ∈ lnci → same_key_str r l = false).
  { intros l Hl. apply bool_decide_eq_false. intros [Hc Hd].
    assert (Hin : (CERT r, iso_date (REPDTE r)) ∈ overlap df lnci).
    { unfold overlap, main_keys, lnci_keys.
      apply elem_of_intersection. split; apply elem_of_list_to_set, list_elem_of_fmap.
      - by exists r.
      - exists l. split; [by rewrite Hc, Hd|done]. }
    rewrite Hov in Hin. by apply elem_of_empty in Hin. }
  split; apply filter_none; intros l Hl Hm.
  - by rewrite (Hno l Hl) in Hm.
  - apply bool_decide_eq_true in Hm as [Hc Hd].
    specialize (Hno l Hl). apply bool_decide_eq_false in Hno. apply Hno.
    by rewrite Hc, Hd.
Qed.

Lemma overlap_with_cell df lnci :
  overlap ((λ r, with_cell "LNCI" NaN r) <$> df) lnci = overlap df lnci.
Proof.
  unfold overlap, main_keys. rewrite <-list_fmap_compose. done.
Qed.

(** With no overlapping key the rejoin logs the error, keeps every row of
    the main table and leaves LNCI missing everywhere. *)
Lemma merge_lnci_zero_overlap df lnci :
  lnci ≠ [] → overlap df lnci = ∅ →
  ∃ log, merge_lnci df lnci
         = ((λ r, with_cell "LNCI" NaN r) <$> ((λ r, with_cell "LNCI" NaN r) <$> df), log)
         ∧ (ERROR, "NO OVERLAPPING KEYS - merge will fail!") ∈ log.
Proof.
  intros Hl Hov. unfold merge_lnci.
  rewrite bool_decide_eq_false_2 by done.
  rewrite Hov, size_empty. rewrite (bool_decide_eq_true_2 (0 = 0)%nat) by done.
  assert (Hm : merge_left same_key df lnci = (λ r, with_cell "LNCI" NaN r) <$> df).
  { apply merge_left_no_match, list.Forall_forall. intros r Hr.
    by apply (zero_overlap_no_match df lnci r Hov). }
  rewrite Hm.
  assert (Hc : lnci_count ((λ r, with_cell "LNCI" NaN r) <$> df) = 0%nat).
  { unfold lnci_count. rewrite filter_none; [done|].
    intros r' (r & -> & _)%list_elem_of_fmap. by rewrite cell_with_cell_eq. }
  rewrite Hc. rewrite (bool_decide_eq_true_2 (0 = 0)%nat) by done.
  eexists. split.
  - f_equal. apply merge_left_no_match, list.Forall_forall. intros r Hr.
    apply (zero_overlap_no_match ((λ r, with_cell "LNCI" NaN r) <$> df) lnci r);
      [by rewrite overlap_with_cell|done].
  - apply elem_of_cons. right. apply list_elem_of_here.
Qed.

Lemma merge_patch_length df df_p : length (merge_patch df df_p) = length df.
Proof.
  unfold merge_patch. generalize target_fields. intros cols. revert df.
  induction cols as [|c cols IH]; intros df; simpl; [done|].
  rewrite IH. unfold merge_column.
  destruct (has_column df_p c); [|done].
  destruct (has_column df c); simpl; by rewrite length_fmap.
Qed.

Lemma healed_length env df certs w : length (healed env df certs w) = length df.
Proof.
  destruct (healed_cases env df certs w) as [-> | ->]; [done|apply merge_patch_length].
Qed.

(** Healing never touches a column outside the target fields. *)
Lemma healed_other_column env df certs w c :
  c ∉ target_fields →
  Forall (λ r, isna (cell r c) = true) df →
  Forall (λ r, isna (cell r c) = true) (healed env df certs w).
Proof.
  intros Hc Hdf. apply list.Forall_forall. intros r' Hr'.
  apply list_elem_of_lookup in Hr' as [i Hi].
  destruct (lookup_lt_is_Some_2 df i) as [r Hr].
  { rewrite <-(healed_length env df certs w). by eapply lookup_lt_Some. }
  rewrite list.Forall_forall in Hdf.
  specialize (Hdf r (list_elem_of_lookup_2 _ _ _ Hr)).
  destruct (healed_cases env df certs w) as [Heq | Heq]; rewrite Heq in Hi.
  - by simplify_eq.
  - destruct (merge_patch_row df (mjoin (recovered_frames env df certs w)) i r Hr)
      as (r'' & Hr'' & _ & _ & Hcell).
    rewrite Hi in Hr''. injection Hr'' as <-.
    rewrite Hcell. by rewrite bool_decide_eq_false_2.
Qed.

Lemma add_missing_columns_inv df c :
  Forall (λ r, isna (cell r c) = true) df →
  length (add_missing_columns df) = length df
  ∧ Forall (λ r, isna (cell r c) = true) (add_missing_columns df).
Proof.
  unfold add_missing_columns. generalize numeric_fields. intros fields. revert df.
  induction fields as [|f fields IH]; intros df Hdf; simpl; [done|].
  destruct (has_column df f); [by apply IH|].
  destruct (IH ((λ r, with_cell f NaN r) <$> df)) as [Hlen Hall].
  - apply Forall_fmap. eapply List.Forall_impl; [|exact Hdf].
    intros r Hr. simpl. destruct (decide (f = c)) as [->|Hne].
    + by rewrite cell_with_cell_eq.
    + by rewrite cell_with_cell_ne.
  - by rewrite Hlen, length_fmap.
Qed.

(** What [fetch_all_banks] does when the two key sets are disjoint. *)
Lemma fetch_all_banks_disjoint cfg api env w combined_df lnci log_l :
  all_bank_data api (certs_to_fetch cfg) ≠ [] →
  combine (all_bank_data api (certs_to_fetch cfg)) = Some combined_df →
  fetch_lnci_separately api (certs_to_fetch cfg) = (lnci, log_l) →
  lnci ≠ [] →
  overlap combined_df lnci = ∅ →
  ∃ df log w',
    fetch_all_banks cfg api env w
    = (Returns (df, failed_certs api (certs_to_fetch cfg)), log, w')
    ∧ (ERROR, "NO OVERLAPPING KEYS - merge will fail!") ∈ log
    ∧ length df = length combined_df
    ∧ Forall (λ r, isna (cell r "LNCI") = true) df.
Proof.
  intros Hdata Hcomb Hlnci Hne Hov. unfold fetch_all_banks. cbv zeta.
  rewrite bool_decide_eq_false_2 by done. rewrite Hcomb, Hlnci.
  destruct (merge_lnci_zero_overlap combined_df lnci Hne Hov) as (log_m & -> & Hlog).
  set (merged := (λ r, with_cell "LNCI" NaN r) <$> ((λ r, with_cell "LNCI" NaN r) <$> combined_df)).
  assert (Hmerged : Forall (λ r, isna (cell r "LNCI") = true) merged).
  { unfold merged. apply Forall_fmap, Forall_true. intros r. simpl.
    by rewrite cell_with_cell_eq. }
  pose proof (healed_other_column env merged (list_to_set (certs_to_fetch cfg)) w "LNCI"
                ltac:(by_compute) Hmerged) as Hhealed.
  pose proof (healed_length env merged (list_to_set (certs_to_fetch cfg)) w) as Hlen.
  unfold healed in Hhealed, Hlen.
  destruct (heal_dataset env merged (list_to_set (certs_to_fetch cfg)) w)
    as [[healed_df st] w']. cbn [fst] in Hhealed, Hlen.
  destruct (add_missing_columns_inv healed_df "LNCI" Hhealed) as [Hlen2 Hall].
  eexists _, _, _. split; [reflexivity|]. split; [|split].
  - apply elem_of_app. right. apply elem_of_app. by right.
  - rewrite merge_sort_Permutation, Hlen2, Hlen. unfold merged.
    by rewrite !length_fmap.
  - by rewrite merge_sort_Permutation.
Qed.

(** C1 (as the code has it): when the separately fetched LNCI series and
    the main table share no (institution, date) key, no exception is
    raised.  The run logs the error "NO OVERLAPPING KEYS - merge will
    fail!", performs the left join all the same, goes on through the healer
    and returns a table that keeps every row of the main table with LNCI
    missing in each. *)
Theorem fetch_all_banks_zero_overlap (cfg : DashboardConfig) (api : Api) (env : Env)
    (w : World) (combined_df : DataFrame) (lnci : list LnciRow)
    (log_l : list (level * string)) :
  all_bank_data api (certs_to_fetch cfg) ≠ [] →
  combine (all_bank_data api (certs_to_fetch cfg)) = Some combined_df →
  fetch_lnci_separately api (certs_to_fetch cfg) = (lnci, log_l) →
  lnci ≠ [] →
  overlap combined_df lnci = ∅ →
  ∃ df log w',
    fetch_all_banks cfg api env w
    = (Returns (df, failed_certs api (certs_to_fetch cfg)), log, w')
    ∧ (ERROR, "NO OVERLAPPING KEYS - merge will fail!") ∈ log
    ∧ length df = length combined_df
    ∧ Forall (λ r, isna (cell r "LNCI") = true) df.
Proof. apply fetch_all_banks_disjoint. Qed.

Lemma fetch_all_banks_zero_overlap_witness :
  ∃ df log w',
    fetch_all_banks cfg_one api_disjoint env_no_tokens world0 = (Returns (df, []), log, w')
    ∧ (ERROR, "NO OVERLAPPING KEYS - merge will fail!") ∈ log
    ∧ length df = 1%nat.
Proof.
  destruct (fetch_all_banks_zero_overlap cfg_one api_disjoint env_no_tokens world0
              [ {| CERT := 34221; REPDTE := {| year := 2024; month := 6; day := 30 |};
                   cells := {[ "LNLS" := F 100 ]} |} ]
              [ {| l_CERT := 34221; l_REPDTE := {| year := 2024; month := 3; day := 31 |};
                   l_LNCI := F 40 |} ]
              [(INFO, "LNCI fetched")])
    as (df & log & w' & Hf & Hlog & Hlen & _).
  - discriminate.
  - reflexivity.
  - reflexivity.
  - discriminate.
  - by_compute.
  - exists df, log, w'. split; [exact Hf|]. split; [exact Hlog|exact Hlen].
Defined.

(** The claim as stated fails: on a main table and an LNCI series with no
    common key the call returns normally, with the one main row and a
    missing LNCI, instead of raising. *)
Lemma zero_overlap_does_not_abort :
  overlap [ {| CERT := 34221; REPDTE := {| year := 2024; month := 6; day := 30 |};
               cells := {[ "LNLS" := F 100 ]} |} ]
          [ {| l_CERT := 34221; l_REPDTE := {| year := 2024; month := 3; day := 31 |};
               l_LNCI := F 40 |} ] = ∅
  ∧ ∃ df log w',
      fetch_all_banks cfg_one api_disjoint env_no_tokens world0
      = (Returns (df, []), log, w')
      ∧ (∀ exc, (fetch_all_banks cfg_one api_disjoint env_no_tokens world0).1.1
                ≠ Raises exc)
      ∧ Forall (λ r, isna (cell r "LNCI") = true) df.
Proof.
  split; [by_compute|].
  destruct (fetch_all_banks_disjoint cfg_one api_disjoint env_no_tokens world0
              [ {| CERT := 34221; REPDTE := {| year := 2024; month := 6; day := 30 |};
                   cells := {[ "LNLS" := F 100 ]} |} ]
              [ {| l_CERT := 34221; l_REPDTE := {| year := 2024; month := 3; day := 31 |};
                   l_LNCI := F 40 |} ]
              [(INFO, "LNCI fetched")])
    as (df & log & w' & Hf & _ & _ & Hall);
    [discriminate | reflexivity | reflexivity | discriminate | by_compute |].
  exists df, log, w'. split; [exact Hf|]. split; [|exact Hall].
  intros exc. rewrite Hf. discriminate.
Qed.
